(** * addkey: the authorized_keys codec and the pull / merge / push pipeline

  A shallow embedding of [addkey.go] (package [cgt.name/pkg/addkey]) and
  the properties of its specification.

  Definitions
  - [GoBytes], [GoError], [GoBufio], [GoFlag]: the pieces of the Go
    standard library the program calls ([bytes], [errors]/[fmt],
    [bufio.Reader.ReadBytes], [flag.Parse]).
  - [SshAPI]: the three entry points of [golang.org/x/crypto/ssh] the
    program uses, as an interface; codec and pipeline are verified for
    every implementation of it.
  - Section [Codec]: [MarshalWithComment], [parseAuthKey],
    [readAuthorizedKeys].
  - [World], [Env] and section [Pipeline]: the file system, the [lxc]
    transport, the buffered writer, [rmFile], [writeAuthorizedKeys],
    [realmain], [main].
  - [Base64], [SshKeys], [SshText]: the textual layer of the ssh package
    ([MarshalAuthorizedKey], [ParseAuthorizedKey]) over its binary layer,
    which stays abstract; used for the round trip between encoder and
    decoder.
  - [Demo]: three keys and a world to run the program on.

  Properties: the decoder, the pipeline step by step, the claims about
  the pipeline, base64 and white space, the round trip, the claims on the
  worked examples. *)

From Stdlib Require Import Strings.Ascii Strings.Byte ZifyNat.
From stdpp Require Import gmap strings list fin_maps.

(** Go's [[]byte]. Go's [string] is [string]; the conversions [[]byte(s)]
  and [string(b)] are [list_byte_of_string] and [string_of_list_byte]. *)
Abbreviation bytes := (list byte).

#[global] Instance byte_eq_decision : EqDecision byte := Byte.byte_eq_dec.

(** ** Package [bytes] *)
Module GoBytes.

(** [bytes.HasPrefix(s, prefix)] *)
Fixpoint HasPrefix (s prefix : bytes) {struct prefix} : bool :=
  match prefix, s with
  | [], _ => true
  | _ :: _, [] => false
  | p :: prefix', b :: s' => Byte.eqb b p && HasPrefix s' prefix'
  end.

(** [bytes.IndexByte(s, c)]; [None] is Go's [-1]. *)
Fixpoint IndexByte (s : bytes) (c : byte) : option nat :=
  match s with
  | [] => None
  | b :: s' => if Byte.eqb b c then Some 0 else S <$> IndexByte s' c
  end.

(** [bytes.IndexAny(s, chars)] for ASCII [chars]; [None] is Go's [-1]. *)
Fixpoint IndexAny (s : bytes) (chars : bytes) : option nat :=
  match s with
  | [] => None
  | b :: s' => if existsb (Byte.eqb b) chars then Some 0
               else S <$> IndexAny s' chars
  end.

(** [bytes.Compare(a, b) == 0] *)
Definition Equal (a b : bytes) : bool := bool_decide (a = b).

(** White space as [unicode.IsSpace] defines it, in UTF-8: the six ASCII
    characters tab, line feed, vertical tab, form feed, carriage return
    and space, then U+0085, U+00A0, U+1680, U+2000..U+200A, U+2028,
    U+2029, U+202F, U+205F and U+3000. UTF-8 decoding accepts no other
    encoding of these runes. *)
Definition spaceRunes : list bytes :=
  [ [x09]; [x0a]; [x0b]; [x0c]; [x0d]; [x20];
    [xc2; x85]; [xc2; xa0]; [xe1; x9a; x80];
    [xe2; x80; x80]; [xe2; x80; x81]; [xe2; x80; x82]; [xe2; x80; x83];
    [xe2; x80; x84]; [xe2; x80; x85]; [xe2; x80; x86]; [xe2; x80; x87];
    [xe2; x80; x88]; [xe2; x80; x89]; [xe2; x80; x8a];
    [xe2; x80; xa8]; [xe2; x80; xa9]; [xe2; x80; xaf];
    [xe2; x81; x9f]; [xe3; x80; x80] ].

(** Width in bytes of the white-space rune [s] starts with, [0] when [s]
    starts with anything else; [runes] is the table to match against. *)
Definition spaceWidth (runes : list bytes) (s : bytes) : nat :=
  match find (HasPrefix s) runes with
  | Some r => length r
  | None => 0
  end.

(** Drop white-space runes from the front; [skip] counts the bytes of the
    current rune still to drop. *)
Fixpoint trimFront (runes : list bytes) (skip : nat) (s : bytes) : bytes :=
  match s with
  | [] => []
  | _ :: s' =>
      match skip with
      | S n => trimFront runes n s'
      | 0 => match spaceWidth runes s with
             | 0 => s
             | S n => trimFront runes n s'
             end
      end
  end.

(** [bytes.TrimLeftFunc(s, unicode.IsSpace)] *)
Definition TrimLeftSpace (s : bytes) : bytes := trimFront spaceRunes 0 s.

(** [bytes.TrimRightFunc(s, unicode.IsSpace)]: the same scan from the
    end, against the reversed encodings. *)
Definition TrimRightSpace (s : bytes) : bytes :=
  rev (trimFront (map (@rev byte) spaceRunes) 0 (rev s)).

(** [bytes.TrimSpace(s)] *)
Definition TrimSpace (s : bytes) : bytes := TrimRightSpace (TrimLeftSpace s).

End GoBytes.

(** ** Error values *)
Module GoError.

(** Go's [error] values as this program meets them. [errors_New msg] is
    [errors.New(msg)], also [fmt.Errorf(msg)] for a format without verbs;
    [fmt_Errorf pre e post] is [fmt.Errorf(pre + "%v" + post, e)];
    [ext_error] stands for the errors made by [os], [os/exec] and the ssh
    package. *)
Inductive error : Type :=
| io_EOF
| errors_New (msg : string)
| fmt_Errorf (pre : string) (cause : error) (post : string)
| ext_error (msg : string).

(** The [Error()] method: the message [%v] prints. *)
Fixpoint Error (e : error) : string :=
  match e with
  | io_EOF => "EOF"
  | errors_New msg => msg
  | fmt_Errorf pre cause post => pre +:+ Error cause +:+ post
  | ext_error msg => msg
  end.

#[global] Instance error_eq_decision : EqDecision error.
Proof. solve_decision. Defined.

End GoError.
Export GoError.

(** ** [bufio.Reader] over an [io.Reader] *)
Module GoBufio.

(** What an [io.Reader] still has to deliver: [rd_data], then io.EOF
    ([rd_fail = None]) or a read error. *)
Record Reader : Type := mkReader { rd_data : bytes; rd_fail : option string }.

Definition rd_end (r : Reader) : error :=
  match rd_fail r with
  | Some msg => ext_error msg
  | None => io_EOF
  end.

(** [rr.ReadBytes(delim)]: the bytes up to and including the first
    [delim]; when the source ends first, the bytes read so far together
    with the source's error. *)
Definition ReadBytes (r : Reader) (delim : byte)
  : bytes * option error * Reader :=
  match GoBytes.IndexByte (rd_data r) delim with
  | Some i => (take (S i) (rd_data r), None,
               mkReader (drop (S i) (rd_data r)) (rd_fail r))
  | None => (rd_data r, Some (rd_end r), mkReader [] (rd_fail r))
  end.

End GoBufio.
Export GoBufio.

(** ** The ssh package, as the program sees it

    [golang.org/x/crypto/ssh] is not part of this program. The program
    calls [ssh.ParseAuthorizedKey] (keeping the key, the comment and the
    error, and dropping the options and the rest of the input),
    [ssh.MarshalAuthorizedKey] and the [Marshal] method of [ssh.PublicKey]. *)
Class SshAPI : Type := {
  PublicKey : Type;
  Marshal : PublicKey -> bytes;
  MarshalAuthorizedKey : PublicKey -> bytes;
  ParseAuthorizedKey : bytes -> (PublicKey * string) + error
}.

(** ** The authorized_keys codec *)
Section Codec.
Context `{ssh : SshAPI}.

Record authKey : Type := mkAuthKey { Key : PublicKey; Comment : string }.

Definition MarshalWithComment (k : authKey) : bytes :=
  GoBytes.TrimSpace (MarshalAuthorizedKey (Key k))
    ++ [x20] ++ String.list_byte_of_string (Comment k) ++ [x0a].

Definition KeyAlgoRSA : string := "ssh-rsa".
Definition KeyAlgoDSA : string := "ssh-dss".
Definition KeyAlgoECDSA256 : string := "ecdsa-sha2-nistp256".
Definition KeyAlgoECDSA384 : string := "ecdsa-sha2-nistp384".
Definition KeyAlgoECDSA521 : string := "ecdsa-sha2-nistp521".

Definition errUnsupportedKeyAlgo : error :=
  errors_New ("unsupported key algorithm. Supported algorithms: "
              +:+ KeyAlgoRSA +:+ ", " +:+ KeyAlgoDSA +:+ ", "
              +:+ KeyAlgoECDSA256 +:+ ", " +:+ KeyAlgoECDSA384 +:+ ", "
              +:+ KeyAlgoECDSA521 +:+ ".").

(** The [if / else if] chain of [parseAuthKey] that sets [supported]. *)
Definition supported (line : bytes) : bool :=
  if GoBytes.HasPrefix line (String.list_byte_of_string KeyAlgoRSA) then true
  else if GoBytes.HasPrefix line (String.list_byte_of_string KeyAlgoDSA) then true
  else if GoBytes.HasPrefix line (String.list_byte_of_string KeyAlgoECDSA256) then true
  else if GoBytes.HasPrefix line (String.list_byte_of_string KeyAlgoECDSA384) then true
  else if GoBytes.HasPrefix line (String.list_byte_of_string KeyAlgoECDSA521) then true
  else false.

Definition parseAuthKey (line : bytes) : authKey + error :=
  if negb (supported line) then inr errUnsupportedKeyAlgo
  else match ParseAuthorizedKey line with
       | inr err => inr (fmt_Errorf "error parsing key: " err "")
       | inl (key, comment) => inl (mkAuthKey key comment)
       end.

(** The [for] loop of [readAuthorizedKeys]. Every turn that does not leave
    the loop takes at least one byte from the reader, so [fuel] above the
    length of the input is never used up ([readLoop_fuel]). *)
Fixpoint readLoop (fuel : nat) (rr : Reader) (keys : list authKey)
  : list authKey * option error :=
  match fuel with
  | 0 => (keys, None)
  | S fuel' =>
      let '(line, err, rr') := ReadBytes rr x0a in
      match err with
      | Some e => if decide (e = io_EOF) then (keys, None) else ([], Some e)
      | None =>
          match parseAuthKey line with
          | inr e => ([], Some e)
          | inl key => readLoop fuel' rr' (keys ++ [key])
          end
      end
  end.

(** The loop entered with [keys] already collected. *)
Definition readFrom (r : Reader) (keys : list authKey)
  : list authKey * option error :=
  readLoop (S (length (rd_data r))) r keys.

Definition readAuthorizedKeys (r : Reader) : list authKey * option error :=
  readFrom r [].

(** The loop of [realmain] that looks for the new key among the old ones. *)
Fixpoint alreadyPresent (keymarshal : bytes) (keys : list authKey) : bool :=
  match keys with
  | [] => false
  | k :: keys' =>
      if GoBytes.Equal keymarshal (Marshal (Key k)) then true
      else alreadyPresent keymarshal keys'
  end.

End Codec.

(** ** The world outside the program

    The local file system ([files]: path to contents), the positions of the
    open file handles ([handles]: a handle is open while its name is in the
    map), what [lxc file] reaches inside the containers ([remote], keyed by
    [container/path]), the two output streams, and the sequence of
    operations that took effect on the temporary file and through the
    transport (a failed operation leaves no event). The file
    system is private to the run: an operation on an existing file fails
    only when [Env] says so, and closing an open handle or removing an
    existing file does not fail. *)
Record RemoteFile : Type :=
  mkRemoteFile { rf_data : bytes; rf_uid : nat; rf_gid : nat; rf_mode : string }.

Inductive Event : Type :=
| EvCreate (name : string)
| EvPull (src dst : string)
| EvTruncate (name : string) (size : nat)
| EvWrite (name : string) (data : bytes)
| EvPush (src dst : string)
| EvClose (name : string)
| EvRemove (name : string).

Record World : Type := mkWorld {
  files : gmap string bytes;
  handles : gmap string nat;
  remote : gmap string RemoteFile;
  stdout : string;
  stderr : string;
  trace : list Event
}.

(** What a run does not decide: the process environment, the name
    [ioutil.TempFile] picks, and which system calls and [lxc] invocations
    fail. [env_readErr = Some (n, msg)] makes reading the temporary file
    fail after [n] bytes; [env_writeErr = Some (n, msg)] makes the [n]-th
    [Write] on the buffered writer (counting from 0) fail, and
    [env_flushErr] the [Flush] that follows the loop. *)
Record Env : Type := mkEnv {
  env_Args0 : string;
  env_flagDefaults : string;
  env_HOME : string;
  env_tempName : string;
  env_tempFileErr : option string;
  env_pullErr : option string;
  env_readErr : option (nat * string);
  env_truncateErr : option string;
  env_writeErr : option (nat * string);
  env_flushErr : option string;
  env_pushErr : option string
}.

Definition set_files (f : gmap string bytes) (w : World) : World :=
  mkWorld f (handles w) (remote w) (stdout w) (stderr w) (trace w).
Definition set_handles (h : gmap string nat) (w : World) : World :=
  mkWorld (files w) h (remote w) (stdout w) (stderr w) (trace w).
Definition set_remote (r : gmap string RemoteFile) (w : World) : World :=
  mkWorld (files w) (handles w) r (stdout w) (stderr w) (trace w).
Definition set_stderr (s : string) (w : World) : World :=
  mkWorld (files w) (handles w) (remote w) (stdout w) s (trace w).
Definition log (e : Event) (w : World) : World :=
  mkWorld (files w) (handles w) (remote w) (stdout w) (stderr w) (trace w ++ [e]).

(** Computations that act on the world. *)
Definition IO (A : Type) : Type := World -> A * World.

#[global] Instance IO_ret : MRet IO := fun A a w => (a, w).
#[global] Instance IO_bind : MBind IO :=
  fun A B k m w => let '(a, w') := m w in k a w'.

(** Go's [if err != nil { return err }]. *)
Notation "'try' m ; k" :=
  (mbind (M := IO) (fun err : option error =>
            match err with Some e => mret (Some e) | None => k end) m)
  (at level 20, m at level 100, k at level 200, only parsing).

(** [defer cleanup()] around the rest of a function body. *)
Definition defer {A : Type} (cleanup : IO unit) (body : IO A) : IO A :=
  a ← body; _ ← cleanup; mret a.

Definition LF : string := String.string_of_list_byte [x0a].

(** File contents after writing [data] at position [off], the gap filled
    with zero bytes when [off] lies beyond the end. *)
Definition writeAt (off : nat) (data content : bytes) : bytes :=
  take off (content ++ replicate (off - length content) x00)
    ++ data ++ drop (off + length data) content.

Record File : Type := mkFile { Name : string }.

(** ** Package [flag]: the command line

    [flag.Parse()] on the default flag set, as [main] uses it: one string
    flag, [-i]. The default flag set handles errors with [ExitOnError]. *)
Module GoFlag.

Inductive ParseResult : Type :=
| Parsed (keyFlag : string) (args : list string)
| ParseError (msg : string)
| ParseHelp.

(** The loop [for i := 1; i < len(name); i++] of [parseOne] that looks for
    the first [=] behind the first character: the name, and the value when
    there is one. *)
Fixpoint cutValue (name : string) : string * option string :=
  match name with
  | EmptyString => (EmptyString, None)
  | String c rest =>
      if Ascii.eqb c "="%char then (EmptyString, Some rest)
      else let '(n, v) := cutValue rest in (String c n, v)
  end.

Definition nameValue (name : string) : string * option string :=
  match name with
  | EmptyString => (EmptyString, None)
  | String c rest => let '(n, v) := cutValue rest in (String c n, v)
  end.

(** [FlagSet.Parse]: [parseOne] again and again, until an argument is no
    flag, the terminator [--] is met, or a flag is in error. [keyFlag] is
    the value [-i] has so far; a flag given twice keeps its last value. *)
Fixpoint parse (keyFlag : string) (args : list string) : ParseResult :=
  match args with
  | [] => Parsed keyFlag []
  | s :: rest =>
      match s with
      | String c0 (String c1 s') =>
          if negb (Ascii.eqb c0 "-"%char) then Parsed keyFlag args
          else if Ascii.eqb c1 "-"%char && bool_decide (s' = EmptyString)
          then Parsed keyFlag rest
          else
            let name := if Ascii.eqb c1 "-"%char then s' else String c1 s' in
            match name with
            | EmptyString => ParseError ("bad flag syntax: " +:+ s)
            | String n0 _ =>
                if Ascii.eqb n0 "-"%char || Ascii.eqb n0 "="%char
                then ParseError ("bad flag syntax: " +:+ s)
                else
                  let '(name, value) := nameValue name in
                  if bool_decide (name = "i") then
                    match value with
                    | Some v => parse v rest
                    | None =>
                        match rest with
                        | v :: rest' => parse v rest'
                        | [] => ParseError ("flag needs an argument: -" +:+ name)
                        end
                    end
                  else if bool_decide (name = "help") || bool_decide (name = "h")
                  then ParseHelp
                  else ParseError ("flag provided but not defined: -" +:+ name)
            end
      | _ => Parsed keyFlag args
      end
  end.

(** [keyFlag := flag.String("i", "", ...)] and [flag.Parse()] on
    [os.Args[1:]]. *)
Definition Parse (osArgs : list string) : ParseResult := parse "" osArgs.

End GoFlag.

(** [flag.Arg(i)]: the [i]-th positional argument, the empty string when
    there is none. *)
Definition flag_Arg (args : list string) (i : nat) : string := nth i args "".

(** The buffered writer: the file it writes to, the bytes it holds, the
    number of [Write] calls it has served. *)
Record Writer : Type :=
  mkWriter { wr_file : File; wr_buf : bytes; wr_calls : nat }.

Section Pipeline.
Context `{ssh : SshAPI} (env : Env).

(** [perr] prints an error to stderr. *)
Definition perr (e : error) : IO unit :=
  fun w => ((), set_stderr (stderr w +:+ "Error: " +:+ Error e +:+ LF) w).

(** [f.Close()] *)
Definition File_Close (f : File) : IO (option error) := fun w =>
  match handles w !! Name f with
  | Some _ => (None, log (EvClose (Name f))
                       (set_handles (delete (Name f) (handles w)) w))
  | None => (Some (ext_error ("close " +:+ Name f +:+ ": file already closed")), w)
  end.

(** [os.Remove(name)] *)
Definition os_Remove (name : string) : IO (option error) := fun w =>
  match files w !! name with
  | Some _ => (None, log (EvRemove name) (set_files (delete name (files w)) w))
  | None => (Some (ext_error ("remove " +:+ name +:+ ": no such file or directory")), w)
  end.

(** [rmFile] closes and deletes a file. *)
Definition rmFile (f : File) : IO unit :=
  err ← File_Close f;
  _ ← match err with
      | Some e => perr (fmt_Errorf "error closing temp file: " e LF)
      | None => mret ()
      end;
  err ← os_Remove (Name f);
  match err with
  | Some e => perr (fmt_Errorf "error deleting temp file: " e LF)
  | None => mret ()
  end.

(** [exec.Command("lxc", "file", "pull", src, dst).Run()] *)
Definition lxc_file_pull (src dst : string) : IO (option error) := fun w =>
  match env_pullErr env with
  | Some msg => (Some (ext_error msg), w)
  | None =>
      match remote w !! src with
      | Some rf =>
          (None, log (EvPull src dst)
                   (set_files (<[dst := rf_data rf]> (files w)) w))
      | None => (Some (ext_error "exit status 1"), w)
      end
  end.

(** [lxcPull] retrieves a file from a container. *)
Definition lxcPull (dstPath srcPath : string) : IO (option error) :=
  try lxc_file_pull srcPath dstPath;
  mret None.

(** [exec.Command("lxc", "file", "push", "--uid=0", "--gid=0", "--mode=640",
    src, dst).Run()]: all or nothing. *)
Definition lxc_file_push (src dst : string) : IO (option error) := fun w =>
  match env_pushErr env with
  | Some msg => (Some (ext_error msg), w)
  | None =>
      match files w !! src with
      | Some data =>
          (None, log (EvPush src dst)
                   (set_remote (<[dst := mkRemoteFile data 0 0 "640"]> (remote w)) w))
      | None => (Some (ext_error "exit status 1"), w)
      end
  end.

(** [lxcPush] copies a file to a container, owned by root:root with
    permissions 640. *)
Definition lxcPush (dstPath srcPath : string) : IO (option error) :=
  try lxc_file_push srcPath dstPath;
  mret None.

(** [ioutil.ReadFile(path)] *)
Definition ioutil_ReadFile (path : string) : IO (bytes * option error) := fun w =>
  match files w !! path with
  | Some data => ((data, None), w)
  | None => (([], Some (ext_error ("open " +:+ path +:+ ": no such file or directory"))), w)
  end.

(** [ioutil.TempFile("", "addkey")]: a new empty file, open at position 0;
    it fails rather than reuse an existing name. *)
Definition ioutil_TempFile : IO (File + error) := fun w =>
  match env_tempFileErr env with
  | Some msg => (inr (ext_error msg), w)
  | None =>
      match files w !! env_tempName env with
      | Some _ => (inr (ext_error ("open " +:+ env_tempName env +:+ ": file exists")), w)
      | None =>
          (inl (mkFile (env_tempName env)),
           log (EvCreate (env_tempName env))
             (set_handles (<[env_tempName env := 0]> (handles w))
                (set_files (<[env_tempName env := []]> (files w)) w)))
      end
  end.

(** The file as an [io.Reader]: what is in it from the handle's position
    on, up to the point where [env_readErr] cuts in; the handle moves past
    what was delivered. *)
Definition File_Reader (f : File) : IO Reader := fun w =>
  match handles w !! Name f with
  | None => (mkReader [] (Some ("read " +:+ Name f +:+ ": file already closed")), w)
  | Some off =>
      let avail := drop off (default [] (files w !! Name f)) in
      let r := match env_readErr env with
               | Some (n, msg) => mkReader (take n avail) (Some msg)
               | None => mkReader avail None
               end in
      (r, set_handles (<[Name f := off + length (rd_data r)]> (handles w)) w)
  end.

(** [f.Truncate(size)] *)
Definition File_Truncate (f : File) (size : nat) : IO (option error) := fun w =>
  match env_truncateErr env with
  | Some msg => (Some (ext_error msg), w)
  | None =>
      match handles w !! Name f, files w !! Name f with
      | Some _, Some content =>
          (None, log (EvTruncate (Name f) size)
                   (set_files (<[Name f := take size (content ++ replicate (size - length content) x00)]> (files w)) w))
      | _, _ => (Some (ext_error ("truncate " +:+ Name f +:+ ": file already closed")), w)
      end
  end.

(** [f.Seek(offset, 0)]; the program ignores its results. *)
Definition File_Seek (f : File) (offset : nat) : IO unit := fun w =>
  match handles w !! Name f with
  | Some _ => ((), set_handles (<[Name f := offset]> (handles w)) w)
  | None => ((), w)
  end.

(** [f.Write(data)], as the buffered writer calls it. *)
Definition File_Write (f : File) (data : bytes) : IO (option error) := fun w =>
  match handles w !! Name f, files w !! Name f with
  | Some off, Some content =>
      (None, log (EvWrite (Name f) data)
               (set_handles (<[Name f := off + length data]> (handles w))
                  (set_files (<[Name f := writeAt off data content]> (files w)) w)))
  | _, _ => (Some (ext_error ("write " +:+ Name f +:+ ": file already closed")), w)
  end.

(** [bufio.NewWriter(f)] *)
Definition NewWriter (f : File) : Writer := mkWriter f [] 0.

(** The size of the buffer [bufio.NewWriter] allocates. *)
Definition defaultBufSize : nat := 4096.

(** [b.Available()]: the room left in the buffer. *)
Definition Writer_Available (wr : Writer) : nat :=
  defaultBufSize - length (wr_buf wr).

(** The body of [b.Flush()]: the buffered bytes go to the file in one
    [Write]; nothing is done for an empty buffer. *)
Definition Writer_flush (wr : Writer) : IO (option error * Writer) :=
  match wr_buf wr with
  | [] => mret (None, wr)
  | _ :: _ =>
      err ← File_Write (wr_file wr) (wr_buf wr);
      match err with
      | Some e => mret (Some e, wr)
      | None => mret (None, mkWriter (wr_file wr) [] (wr_calls wr))
      end
  end.

(** The body of [b.Write(p)]: while [p] does not fit into the room left,
    either the buffer is empty and [p] goes to the file directly, or the
    buffer is filled up and flushed; what is left of [p] is then copied
    into the buffer. The loop runs at most twice (a flush, then a direct
    write), which is the fuel [Writer_Write] gives it. *)
Fixpoint Writer_fill (fuel : nat) (wr : Writer) (p : bytes)
  : IO (option error * Writer) :=
  if decide (length p <= Writer_Available wr)
  then mret (None, mkWriter (wr_file wr) (wr_buf wr ++ p) (wr_calls wr))
  else
    match fuel with
    | 0 => mret (Some (errors_New "bufio: out of fuel"), wr)
    | S fuel =>
        match wr_buf wr with
        | [] =>
            err ← File_Write (wr_file wr) p;
            match err with
            | Some e => mret (Some e, wr)
            | None => Writer_fill fuel wr []
            end
        | _ :: _ =>
            let n := Writer_Available wr in
            '(err, wr') ← Writer_flush
                            (mkWriter (wr_file wr) (wr_buf wr ++ take n p)
                               (wr_calls wr));
            match err with
            | Some e => mret (Some e, wr')
            | None => Writer_fill fuel wr' (drop n p)
            end
        end
    end.

(** [w.Write(p)] as the program calls it: the call the environment picks
    fails and leaves file and buffer as they were; the others run the
    body. *)
Definition Writer_Write (wr : Writer) (p : bytes) : IO (option error * Writer) :=
  let wr1 := mkWriter (wr_file wr) (wr_buf wr) (S (wr_calls wr)) in
  match env_writeErr env with
  | Some (n, msg) =>
      if decide (n = wr_calls wr) then mret (Some (ext_error msg), wr1)
      else Writer_fill 2 wr1 p
  | None => Writer_fill 2 wr1 p
  end.

(** [w.Flush()] as the program calls it, after the loop. *)
Definition Writer_Flush (wr : Writer) : IO (option error) :=
  match env_flushErr env with
  | Some msg => mret (Some (ext_error msg))
  | None => '(err, _) ← Writer_flush wr; mret err
  end.

(** The [for _, k := range keys] loop of [writeAuthorizedKeys]. *)
Fixpoint writeLoop (wr : Writer) (keys : list authKey)
  : IO (option error * Writer) :=
  match keys with
  | [] => mret (None, wr)
  | k :: keys' =>
      '(err, wr') ← Writer_Write wr (MarshalWithComment k);
      match err with
      | Some e => mret (Some e, wr')
      | None => writeLoop wr' keys'
      end
  end.

Definition writeAuthorizedKeys (f : File) (keys : list authKey) (dstPath : string)
  : IO (option error) :=
  if decide (length keys = 0) then mret (Some (errors_New "no keys to write"))
  else
    try File_Truncate f 0;
    _ ← File_Seek f 0;
    let w := NewWriter f in
    '(err, w) ← writeLoop w keys;
    match err with
    | Some e => mret (Some e)
    | None =>
        try Writer_Flush w;
        try lxcPush dstPath (Name f);
        mret None
    end.

(** The statements of [realmain] that follow [defer rmFile(tmp)]. *)
Definition realmain_rest (container : string) (key : authKey) (tmp : File)
  : IO (option error) :=
  let authKeysPath := container +:+ "/root/.ssh/authorized_keys" in
  try lxcPull (Name tmp) authKeysPath;
  rd ← File_Reader tmp;
  match readAuthorizedKeys rd with
  | (_, Some e) => mret (Some e)
  | (keys, None) =>
      let keymarshal := Marshal (Key key) in
      if alreadyPresent keymarshal keys
      then mret (Some (errors_New "key already in authorized_keys"))
      else
        let keys := keys ++ [key] in
        err ← writeAuthorizedKeys tmp keys authKeysPath;
        match err with
        | Some e => mret (Some (fmt_Errorf "error pushing new authorized_keys: " e ""))
        | None => mret None
        end
  end.

Definition realmain (container : string) (keyFlag : string) : IO (option error) :=
  let keyPath :=
    if decide (String.length keyFlag ≠ 0) then keyFlag
    else env_HOME env +:+ "/.ssh/id_rsa.pub" in
  '(keybuf, err) ← ioutil_ReadFile keyPath;
  match err with
  | Some e => mret (Some (fmt_Errorf "error reading key: " e ""))
  | None =>
      match parseAuthKey keybuf with
      | inr e => mret (Some e)
      | inl key =>
          tmp ← ioutil_TempFile;
          match tmp with
          | inr e => mret (Some e)
          | inl tmp => defer (rmFile tmp) (realmain_rest container key tmp)
          end
      end
  end.

(** [printUsage]: the usage line, then [flag.PrintDefaults()]. *)
Definition printUsage : IO unit := fun w =>
  ((), set_stderr (stderr w +:+ "usage: " +:+ env_Args0 env
                     +:+ " [OPTIONS] <container>" +:+ LF
                     +:+ env_flagDefaults env) w).

(** The message of package [flag] for a command line in error: the
    error, then [flag.Usage], which [main] leaves at its default. *)
Definition flagUsage : string :=
  "Usage of " +:+ env_Args0 env +:+ ":" +:+ LF +:+ env_flagDefaults env.

(** The statements of [main] that follow [flag.Parse()]: [keyFlag] is the
    value of [-i], [args] the positional arguments. The result is the exit
    code of the process. *)
Definition main_body (keyFlag : string) (args : list string) : IO nat :=
  let container := flag_Arg args 0 in
  if decide (String.length container = 0)
  then _ ← printUsage; mret 1
  else
    err ← realmain container keyFlag;
    match err with
    | Some e => _ ← perr e; mret 1
    | None => mret 0
    end.

(** [main] on the command line [os.Args[1:]]. When [flag.Parse()] finds a
    flag in error it prints the error and the usage of the flags and ends
    the process with code 2; for [-h] and [-help] it prints the usage and
    ends the process with code 0 (with code 2 before Go 1.15). *)
Definition main (osArgs : list string) : IO nat :=
  match GoFlag.Parse osArgs with
  | GoFlag.ParseError msg =>
      fun w => (2, set_stderr (stderr w +:+ msg +:+ LF +:+ flagUsage) w)
  | GoFlag.ParseHelp =>
      fun w => (0, set_stderr (stderr w +:+ flagUsage) w)
  | GoFlag.Parsed keyFlag args => main_body keyFlag args
  end.

End Pipeline.

(** ** [encoding/base64], standard alphabet with padding *)
Module Base64.

Definition encodeStd : bytes :=
  String.list_byte_of_string
    "ABCDEFGHIJKLMNOPQRSTUVWXYZabcdefghijklmnopqrstuvwxyz0123456789+/".

Definition padChar : byte := x3d.

(** [enc.encode[v]] *)
Definition encodeChar (v : nat) : byte := nth v encodeStd x00.

(** [enc.decodeMap[c]]; [None] is the table's [0xFF]. *)
Fixpoint indexOf (c : byte) (l : bytes) : option nat :=
  match l with
  | [] => None
  | b :: l' => if Byte.eqb b c then Some 0 else S <$> indexOf c l'
  end.
Definition decodeMap (c : byte) : option nat := indexOf c encodeStd.

(** Go's conversion [byte(n)]. *)
Definition byteOf (n : nat) : byte := default x00 (Byte.of_nat (n mod 256)).

(** [StdEncoding.Encode]: three bytes make four characters, the last
    group is padded. With [a], [b], [c] the source bytes, the four 6-bit
    values are [a >> 2], [(a << 4) & 0x3F | b >> 4],
    [(b << 2) & 0x3F | c >> 6] and [c & 0x3F]. *)
Fixpoint Encode (src : bytes) : bytes :=
  match src with
  | [] => []
  | [a] =>
      let a := Byte.to_nat a in
      [encodeChar (a / 4); encodeChar ((a * 16) mod 64); padChar; padChar]
  | [a; b] =>
      let a := Byte.to_nat a in
      let b := Byte.to_nat b in
      [encodeChar (a / 4); encodeChar ((a * 16) mod 64 + b / 16);
       encodeChar ((b * 4) mod 64); padChar]
  | a :: b :: c :: src' =>
      let a := Byte.to_nat a in
      let b := Byte.to_nat b in
      let c := Byte.to_nat c in
      encodeChar (a / 4) :: encodeChar ((a * 16) mod 64 + b / 16)
        :: encodeChar ((b * 4) mod 64 + c / 64) :: encodeChar (c mod 64)
        :: Encode src'
  end.

Definition CorruptInputError : error := ext_error "illegal base64 data".

(** The quanta of [StdEncoding.Decode], on input without line breaks: four
    characters make [val = d0<<18 | d1<<12 | d2<<6 | d3] and the bytes
    [val>>16], [val>>8], [val]; padding is required, is accepted in the
    last quantum only, and nothing may follow it. The offset that Go's
    [CorruptInputError] carries is left out. *)
Fixpoint decodeQuanta (src : bytes) : bytes + error :=
  match src with
  | [] => inl []
  | c0 :: c1 :: c2 :: c3 :: src' =>
      match decodeMap c0, decodeMap c1 with
      | Some d0, Some d1 =>
          if Byte.eqb c2 padChar then
            if Byte.eqb c3 padChar && bool_decide (src' = [])
            then inl [byteOf (d0 * 4 + d1 / 16)]
            else inr CorruptInputError
          else
            match decodeMap c2 with
            | None => inr CorruptInputError
            | Some d2 =>
                if Byte.eqb c3 padChar then
                  if bool_decide (src' = [])
                  then inl [byteOf (d0 * 4 + d1 / 16); byteOf (d1 * 16 + d2 / 4)]
                  else inr CorruptInputError
                else
                  match decodeMap c3 with
                  | None => inr CorruptInputError
                  | Some d3 =>
                      match decodeQuanta src' with
                      | inr e => inr e
                      | inl out =>
                          inl (byteOf (d0 * 4 + d1 / 16)
                                 :: byteOf (d1 * 16 + d2 / 4)
                                 :: byteOf (d2 * 64 + d3) :: out)
                      end
                  end
            end
      | _, _ => inr CorruptInputError
      end
  | _ => inr CorruptInputError
  end.

(** [StdEncoding.Decode]: carriage returns and line feeds are skipped. *)
Definition Decode (src : bytes) : bytes + error :=
  decodeQuanta
    (filter (fun c => negb (Byte.eqb c x0a || Byte.eqb c x0d)) src).

End Base64.

(** ** The textual layer of the ssh package

    [ssh.MarshalAuthorizedKey] and [ssh.ParseAuthorizedKey] as
    [golang.org/x/crypto/ssh] ([keys.go]) had them when the program was
    written, over the binary layer of the package, which stays abstract:
    the key types with their [Type] and [Marshal] methods, and
    [ssh.ParsePublicKey]. *)
Class SshKeys : Type := {
  KeyT : Type;
  KeyType : KeyT -> string;
  KeyMarshal : KeyT -> bytes;
  ParsePublicKey : bytes -> KeyT + error
}.

Module SshText.
Section Text.
Context `{keys : SshKeys}.

Definition MarshalAuthorizedKey (key : KeyT) : bytes :=
  String.list_byte_of_string (KeyType key) ++ [x20]
    ++ Base64.Encode (KeyMarshal key) ++ [x0a].

Definition spaceTab : bytes := [x20; x09].

(** [parseAuthorizedKey]: a base64 key, then the comment. *)
Definition parseAuthorizedKey (input : bytes) : (KeyT * string) + error :=
  let input := GoBytes.TrimSpace input in
  let i := default (length input) (GoBytes.IndexAny input spaceTab) in
  let base64Key := take i input in
  match Base64.Decode base64Key with
  | inr e => inr e
  | inl key =>
      match ParsePublicKey key with
      | inr e => inr e
      | inl out =>
          inl (out, String.string_of_list_byte (GoBytes.TrimSpace (drop i input)))
      end
  end.

(** Where the scan of the options field stops: the index of the first
    space or tab outside double quotes, or the last index when there is
    none ([for i, b = range in] leaves [i] there). [prev] is the byte
    before, [None] at index 0. *)
Fixpoint optionsEnd (inQuote : bool) (prev : option byte) (i : nat) (s : bytes)
  : nat :=
  match s with
  | [] => i - 1
  | b :: s' =>
      if negb inQuote && (Byte.eqb b x20 || Byte.eqb b x09) then i
      else
        let toggle :=
          Byte.eqb b x22 &&
          match prev with None => true | Some p => negb (Byte.eqb p x5c) end in
        optionsEnd (if toggle then negb inQuote else inQuote) (Some b) (S i) s'
  end.

(** [for i < len(in) && (in[i] == ' ' || in[i] == '\t') { i++ }] *)
Fixpoint skipSpaceTab (s : bytes) : bytes :=
  match s with
  | b :: s' => if Byte.eqb b x20 || Byte.eqb b x09 then skipSpaceTab s' else s
  | [] => []
  end.

(** One turn of the loop of [ParseAuthorizedKey] on the line [line]:
    [Some] when the turn returns a key, [None] when it goes on to the next
    line. The options it collects are not part of the model: the program
    drops them. *)
Definition parseLine (line : bytes) : option (KeyT * string) :=
  let line := match GoBytes.IndexByte line x0d with
              | Some e => take e line
              | None => line
              end in
  let line := GoBytes.TrimSpace line in
  match line with
  | [] => None
  | b :: _ =>
      if Byte.eqb b x23 then None
      else
        match GoBytes.IndexAny line spaceTab with
        | None => None
        | Some i =>
            match parseAuthorizedKey (drop i line) with
            | inl r => Some r
            | inr _ =>
                let line' := skipSpaceTab (drop (optionsEnd false None 0 line) line) in
                match line' with
                | [] => None
                | _ :: _ =>
                    match GoBytes.IndexAny line' spaceTab with
                    | None => None
                    | Some i =>
                        match parseAuthorizedKey (drop i line') with
                        | inl r => Some r
                        | inr _ => None
                        end
                    end
                end
            end
        end
  end.

(** The loop over the lines of the input; [fuel] bounds the number of
    lines. *)
Fixpoint parseLines (fuel : nat) (input : bytes) : (KeyT * string) + error :=
  match fuel with
  | 0 => inr (errors_New "ssh: no key found")
  | S fuel' =>
      match input with
      | [] => inr (errors_New "ssh: no key found")
      | _ :: _ =>
          let '(line, rest) :=
            match GoBytes.IndexByte input x0a with
            | Some e => (take e input, drop (S e) input)
            | None => (input, [])
            end in
          match parseLine line with
          | Some r => inl r
          | None => parseLines fuel' rest
          end
      end
  end.

Definition ParseAuthorizedKey (input : bytes) : (KeyT * string) + error :=
  parseLines (S (length input)) input.

(** The ssh package as the program sees it. *)
Definition api : SshAPI :=
  Build_SshAPI KeyT KeyMarshal MarshalAuthorizedKey ParseAuthorizedKey.

End Text.
End SshText.

(** ** Worked examples

    A binary layer to run the program on: a key is its wire form
    (RFC 4253: the algorithm name, then the fields of the key, every item
    behind its 4-byte length), and [ParsePublicKey] accepts a blob that
    starts with the name of one of the five algorithms without looking
    into the fields. The three keys below are RSA keys with exponent 65537;
    on them the ssh package parses and marshals to the same bytes. *)
Module Demo.

Definition wire (s : bytes) : bytes :=
  [x00; x00; x00; Base64.byteOf (length s)] ++ s.

Definition algorithms : list string :=
  [KeyAlgoRSA; KeyAlgoDSA; KeyAlgoECDSA256; KeyAlgoECDSA384; KeyAlgoECDSA521].

(** The algorithm name a blob starts with. *)
Definition algoOf (blob : bytes) : option string :=
  match blob with
  | x00 :: x00 :: x00 :: n :: rest =>
      if decide (Byte.to_nat n ≤ length rest)
      then Some (String.string_of_list_byte (take (Byte.to_nat n) rest))
      else None
  | _ => None
  end.

Definition keys : SshKeys :=
  {| KeyT := bytes;
     KeyType := fun k => default "" (algoOf k);
     KeyMarshal := fun k => k;
     ParsePublicKey := fun blob =>
       match algoOf blob with
       | Some a => if bool_decide (a ∈ algorithms) then inl blob
                   else inr (ext_error ("ssh: unknown key algorithm: " +:+ a))
       | None => inr (ext_error "ssh: short read")
       end |}.

Definition ssh : SshAPI := @SshText.api keys.

Definition rsaKey (modulus : bytes) : bytes :=
  wire (String.list_byte_of_string KeyAlgoRSA)
    ++ wire [x01; x00; x01] ++ wire modulus.

Definition keyA : bytes := rsaKey [x00; xc3; x5b; x1d; x77].
Definition keyB : bytes := rsaKey [x00; xd1; x0f; x42; xa9].
Definition keyC : bytes := rsaKey [x00; xe7; x33; x8c; x05].

Definition recA : @authKey ssh := mkAuthKey (ssh := ssh) keyA "alice@host".
Definition recB : @authKey ssh := mkAuthKey (ssh := ssh) keyB "bob@host".
Definition recC : @authKey ssh := mkAuthKey (ssh := ssh) keyC "carol@host".

(** Carol's key as the container may already have it, under another
    comment. *)
Definition recC' : @authKey ssh := mkAuthKey (ssh := ssh) keyC "carol (old laptop)".

(** A record whose comment starts with a space, and what comes back for it. *)
Definition recSpaced : @authKey ssh := mkAuthKey (ssh := ssh) keyA " x".
Definition recTrimmed : @authKey ssh := mkAuthKey (ssh := ssh) keyA "x".

(** The encoded line of a record without its line feed. *)
Definition lineOf (r : @authKey ssh) : bytes :=
  take (length (MarshalWithComment r) - 1) (MarshalWithComment r).

(** A line whose leading token, the name of a certificate algorithm,
    starts with the bytes of [ssh-rsa] and is none of the five identifiers. *)
Definition certLine : bytes :=
  String.list_byte_of_string "ssh-rsa-cert-v01@openssh.com " ++ Base64.Encode keyA
    ++ String.list_byte_of_string " alice@host" ++ [x0a].

(** A line of an algorithm outside the five. *)
Definition ed25519Line : bytes :=
  String.list_byte_of_string
    "ssh-ed25519 AAAAC3NzaC1lZDI1NTE5AAAAIDm0ZpJroGGyP1xkdSpJL0XgN1qsPkZbNcbGoU3Xz1pW dave@host".

Definition keyFile : string := "/home/carol/.ssh/id_rsa.pub".
Definition tmpFile : string := "/tmp/addkey012345678".
Definition remotePath : string := "web1/root/.ssh/authorized_keys".

(** An environment in which nothing fails. *)
Definition env : Env :=
  {| env_Args0 := "addkey";
     env_flagDefaults := "";
     env_HOME := "/home/carol";
     env_tempName := tmpFile;
     env_tempFileErr := None;
     env_pullErr := None;
     env_readErr := None;
     env_truncateErr := None;
     env_writeErr := None;
     env_flushErr := None;
     env_pushErr := None |}.

(** Carol's key on the local disk; the container [web1] has the keys
    [old] in root's authorized_keys. *)
Definition world (old : list (@authKey ssh)) : World :=
  {| files := {[ keyFile := MarshalWithComment recC ]};
     handles := ∅;
     remote := {[ remotePath :=
                    mkRemoteFile (flat_map MarshalWithComment old) 0 0 "600" ]};
     stdout := "";
     stderr := "";
     trace := [] |}.

End Demo.

(** ** Vocabulary of the specification *)

(** A stream made of complete lines: every line followed by a line feed. *)
Definition joinLines (ls : list bytes) : bytes :=
  flat_map (fun l => l ++ [x0a]) ls.

(** A piece of input without line feed. *)
Definition noLF (s : bytes) : Prop := GoBytes.IndexByte s x0a = None.

(** Printable ASCII without the space: what the tokens of a line are
    made of. *)
Definition graphic (b : byte) : bool :=
  (33 <=? Byte.to_nat b) && (Byte.to_nat b <=? 126).

(** The five supported algorithm identifiers. *)
Definition identifiers : list string :=
  [KeyAlgoRSA; KeyAlgoDSA; KeyAlgoECDSA256; KeyAlgoECDSA384; KeyAlgoECDSA521].

(** The leading token of a line: what stands before the first space, tab
    or line break. *)
Definition leadingToken (line : bytes) : string :=
  String.string_of_list_byte
    (take (default (length line) (GoBytes.IndexAny line [x20; x09; x0a; x0d])) line).

(** A comment the decoder gives back as it is: no line feed or carriage
    return in it, no white space at its ends. *)
Definition plainComment (c : string) : Prop :=
  noLF (String.list_byte_of_string c) /\
  GoBytes.IndexByte (String.list_byte_of_string c) x0d = None /\
  GoBytes.TrimSpace (String.list_byte_of_string c) = String.list_byte_of_string c.

Section RecordVocabulary.
Context `{keys : SshKeys}.

(** A key of one of the five algorithms. *)
Definition supportedKey (k : KeyT) : Prop := KeyType k ∈ identifiers.

(** A key as the ssh package makes them: it has a wire form, and
    [ParsePublicKey] gives the key back from it. *)
Definition libraryKey (k : KeyT) : Prop :=
  KeyMarshal k ≠ [] /\ ParsePublicKey (KeyMarshal k) = inl k.

(** The records the round trip holds for. *)
Definition wellFormed (r : @authKey SshText.api) : Prop :=
  supportedKey (Key r) /\ libraryKey (Key r) /\ plainComment (Comment r).

(** The records the claim calls well-formed: a supported algorithm and a
    comment without newline. *)
Definition wellFormedAsClaimed (r : @authKey SshText.api) : Prop :=
  supportedKey (Key r) /\ libraryKey (Key r) /\
  noLF (String.list_byte_of_string (Comment r)).

End RecordVocabulary.

(** The events that change the temporary file's contents or the container. *)
Definition isWriteEvent (e : Event) : bool :=
  match e with
  | EvTruncate _ _ | EvWrite _ _ | EvPush _ _ => true
  | _ => false
  end.

Definition isPush (e : Event) : bool :=
  match e with EvPush _ _ => true | _ => false end.

(** The run wrote nothing to standard output or standard error. *)
Definition sameOutput (w w' : World) : Prop :=
  stdout w' = stdout w /\ stderr w' = stderr w.

(** The file exists and its handle is open. *)
Definition live (f : File) (w : World) : Prop :=
  is_Some (handles w !! Name f) /\ is_Some (files w !! Name f).

(** Files and handles other than [f] are as they were. *)
Definition onlyTouches (f : File) (w w' : World) : Prop :=
  forall p : string, p ≠ Name f ->
    files w' !! p = files w !! p /\ handles w' !! p = handles w !! p.

(** The spec's names for the errors of the pipeline. *)
Definition DuplicateKeyError : error := errors_New "key already in authorized_keys".
Definition NoKeysError : error := errors_New "no keys to write".
Definition UnsupportedAlgorithm : error := errUnsupportedKeyAlgo.

(** The file [realmain] reads the new key from. *)
Definition keyPath (env : Env) (keyFlag : string) : string :=
  if decide (String.length keyFlag ≠ 0) then keyFlag
  else env_HOME env +:+ "/.ssh/id_rsa.pub".

(** Root's authorized_keys in a container, as [lxc file] names it. *)
Definition authKeysPath (container : string) : string :=
  container +:+ "/root/.ssh/authorized_keys".

(** The text of the usage message. *)
Definition usage (env : Env) : string :=
  "usage: " +:+ env_Args0 env +:+ " [OPTIONS] <container>" +:+ LF
    +:+ env_flagDefaults env.

(** No operation fails in [env]. *)
Definition noFailure (env : Env) : Prop :=
  env_tempFileErr env = None /\ env_pullErr env = None /\
  env_readErr env = None /\ env_truncateErr env = None /\
  env_writeErr env = None /\ env_flushErr env = None /\
  env_pushErr env = None.

(** ** Vocabulary for the further properties *)

(** What [perr] prints for an error. *)
Definition perrText (e : error) : string := "Error: " +:+ Error e +:+ LF.

(** The errors [rmFile] reports. *)
Definition closeError (f : File) : error :=
  fmt_Errorf "error closing temp file: "
    (ext_error ("close " +:+ Name f +:+ ": file already closed")) LF.
Definition removeError (f : File) : error :=
  fmt_Errorf "error deleting temp file: "
    (ext_error ("remove " +:+ Name f +:+ ": no such file or directory")) LF.

(** The failure that stops [writeAuthorizedKeys] on [n] keys, when the file
    is there and open: the steps in their order, truncate, the [n] calls of
    [Write], flush, push. *)
Definition firstWriteFailure (env : Env) (n : nat) : option string :=
  match env_truncateErr env with
  | Some msg => Some msg
  | None =>
      match env_writeErr env with
      | Some (i, msg) =>
          if decide (i < n) then Some msg
          else match env_flushErr env with
               | Some msg => Some msg
               | None => env_pushErr env
               end
      | None =>
          match env_flushErr env with
          | Some msg => Some msg
          | None => env_pushErr env
          end
      end
  end.

(** The world after [f.Truncate(0)] and [f.Seek(0, 0)] on an open file. *)
Definition truncated (f : File) (w : World) : World :=
  set_handles (<[Name f := 0]> (handles w))
    (log (EvTruncate (Name f) 0) (set_files (<[Name f := []]> (files w)) w)).

(** The world after the writes of [chunks] to the file [f], one after the
    other from the start of the emptied file. *)
Definition wrote (f : File) (chunks : list bytes) (w : World) : World :=
  mkWorld (<[Name f := concat chunks]> (files w))
          (<[Name f := length (concat chunks)]> (handles w))
          (remote w) (stdout w) (stderr w)
          (trace w ++ (EvWrite (Name f) <$> chunks)).

(** The world after a push of the file [f], holding [data], to [dst]. *)
Definition pushed (f : File) (dst : string) (data : bytes) (w : World) : World :=
  log (EvPush (Name f) dst)
    (set_remote (<[dst := mkRemoteFile data 0 0 "640"]> (remote w)) w).

(** The failure of the [Write] calls that the environment picks, when the
    call is among those of a loop over [n] keys that starts at call
    [calls]. *)
Definition writeFailure (env : Env) (calls n : nat) : option error :=
  match env_writeErr env with
  | Some (i, msg) =>
      if decide (calls <= i < calls + n) then Some (ext_error msg) else None
  | None => None
  end.


Section OutcomeTable.
Context `{ssh : SshAPI} (env : Env).

(** What reading the pulled file gives: the decoder on its contents, cut
    short with an error where [env_readErr] says so. *)
Definition decodeRemote (old : RemoteFile) : list authKey * option error :=
  readAuthorizedKeys
    match env_readErr env with
    | Some (n, msg) => mkReader (take n (rf_data old)) (Some msg)
    | None => mkReader (rf_data old) None
    end.

(** The error [realmain] returns, read off the initial world: the first
    step that fails decides. *)
Definition outcome (container keyFlag : string) (w : World) : option error :=
  match files w !! keyPath env keyFlag with
  | None =>
      Some (fmt_Errorf "error reading key: "
              (ext_error ("open " +:+ keyPath env keyFlag
                            +:+ ": no such file or directory")) "")
  | Some keybuf =>
      match parseAuthKey keybuf with
      | inr e => Some e
      | inl key =>
          match env_tempFileErr env, files w !! env_tempName env with
          | Some msg, _ => Some (ext_error msg)
          | None, Some _ =>
              Some (ext_error ("open " +:+ env_tempName env +:+ ": file exists"))
          | None, None =>
              match env_pullErr env, remote w !! authKeysPath container with
              | Some msg, _ => Some (ext_error msg)
              | None, None => Some (ext_error "exit status 1")
              | None, Some old =>
                  match decodeRemote old with
                  | (_, Some e) => Some e
                  | (keys, None) =>
                      if alreadyPresent (Marshal (Key key)) keys
                      then Some DuplicateKeyError
                      else
                        match firstWriteFailure env (S (length keys)) with
                        | Some msg =>
                            Some (fmt_Errorf "error pushing new authorized_keys: "
                                    (ext_error msg) "")
                        | None => None
                        end
                  end
              end
          end
      end
  end.

End OutcomeTable.

(** ** Further example data *)
Module DemoSteps.

(** The example world after [ioutil.TempFile]: the temporary file is
    there, empty and open. *)
Definition opened (old : list (@authKey Demo.ssh)) : World :=
  snd (ioutil_TempFile Demo.env (Demo.world old)).

(** A line as people write them by hand into authorized_keys. *)
Definition commentLine : bytes := String.list_byte_of_string "# managed by hand".

(** An environment in which flushing the buffered writer fails. *)
Definition envFlushFails : Env :=
  {| env_Args0 := "addkey";
     env_flagDefaults := "";
     env_HOME := "/home/carol";
     env_tempName := Demo.tmpFile;
     env_tempFileErr := None;
     env_pullErr := None;
     env_readErr := None;
     env_truncateErr := None;
     env_writeErr := None;
     env_flushErr := Some "write /tmp/addkey012345678: no space left on device";
     env_pushErr := None |}.

(** The sizes of the writes to files in a trace, in their order. *)
Definition writeSizes (evs : list Event) : list nat :=
  evs ≫= fun e => match e with EvWrite _ d => [length d] | _ => [] end.

End DemoSteps.

(** * Properties *)

(** ** Facts about the [bytes] functions *)
Section BytesFacts.

Lemma IndexByte_app_hit (s t : bytes) (c : byte) :
  GoBytes.IndexByte s c = None ->
  GoBytes.IndexByte (s ++ c :: t) c = Some (length s).
Proof.
  induction s as [|b s IH]; simpl.
  - intros _. destruct (Byte.eqb c c) eqn:E; [done|].
    apply Byte.eqb_false in E. done.
  - destruct (Byte.eqb b c); [done|]. intros H.
    destruct (GoBytes.IndexByte s c) eqn:E; [done|]. by rewrite IH.
Qed.

Lemma IndexByte_None_app (s t : bytes) (c : byte) :
  GoBytes.IndexByte s c = None -> GoBytes.IndexByte t c = None ->
  GoBytes.IndexByte (s ++ t) c = None.
Proof.
  induction s as [|b s IH]; simpl; [done|].
  destruct (Byte.eqb b c); [done|]. intros H Ht.
  destruct (GoBytes.IndexByte s c) eqn:E; [done|]. by rewrite IH.
Qed.

Lemma IndexByte_lt (s : bytes) (c : byte) (i : nat) :
  GoBytes.IndexByte s c = Some i -> i < length s.
Proof.
  revert i. induction s as [|b s IH]; simpl; [done|]. intros i.
  destruct (Byte.eqb b c); [intros [= <-]; lia|].
  destruct (GoBytes.IndexByte s c) eqn:E; simpl; [|done].
  intros [= <-]. specialize (IH _ eq_refl). lia.
Qed.

Lemma take_S_app_cons {A : Type} (l r : list A) (x : A) :
  take (S (length l)) (l ++ x :: r) = l ++ [x].
Proof. induction l as [|a l IH]; simpl; [done | by rewrite IH]. Qed.

Lemma drop_S_app_cons {A : Type} (l r : list A) (x : A) :
  drop (S (length l)) (l ++ x :: r) = r.
Proof. induction l as [|a l IH]; simpl; done. Qed.

Lemma HasPrefix_app_other (l p : bytes) (c : byte) :
  c ∉ p -> GoBytes.HasPrefix (l ++ [c]) p = GoBytes.HasPrefix l p.
Proof.
  revert l. induction p as [|a p IH]; intros l Hc; [by destruct l|].
  apply not_elem_of_cons in Hc as [Hca Hcp].
  destruct l as [|b l]; simpl.
  - destruct (Byte.eqb c a) eqn:E; [|done].
    apply Byte.byte_dec_bl in E. done.
  - by rewrite IH.
Qed.

End BytesFacts.

(** ** The decoding loop *)
Section CodecFacts.
Context `{ssh : SshAPI}.

Lemma readLoop_S (fuel : nat) (r : Reader) (keys : list authKey) :
  readLoop (S fuel) r keys =
    let '(line, err, rr') := ReadBytes r x0a in
    match err with
    | Some e => if decide (e = io_EOF) then (keys, None) else ([], Some e)
    | None =>
        match parseAuthKey line with
        | inr e => ([], Some e)
        | inl key => readLoop fuel rr' (keys ++ [key])
        end
    end.
Proof. reflexivity. Qed.

(** Every turn that goes round takes bytes from the reader, so any two
    amounts of fuel above the length of the input give the same result. *)
Lemma readLoop_fuel_irrelevant (fuel1 fuel2 : nat) (r : Reader) (keys : list authKey) :
  length (rd_data r) < fuel1 -> length (rd_data r) < fuel2 ->
  readLoop fuel1 r keys = readLoop fuel2 r keys.
Proof.
  revert fuel2 r keys.
  induction fuel1 as [|fuel1 IH]; intros [|fuel2] r keys H1 H2; try lia.
  rewrite !readLoop_S. destruct r as [data fail]. unfold ReadBytes.
  cbn [rd_data rd_fail] in *.
  destruct (GoBytes.IndexByte data x0a) as [i|] eqn:Hi; [|done].
  destruct (parseAuthKey _); [|done].
  pose proof (IndexByte_lt _ _ _ Hi) as Hlen.
  apply IH; cbn [rd_data]; rewrite length_drop; lia.
Qed.

Lemma readLoop_fuel (fuel : nat) (r : Reader) (keys : list authKey) :
  length (rd_data r) < fuel ->
  readLoop fuel r keys = readFrom r keys.
Proof. intros H. apply readLoop_fuel_irrelevant; [done | lia]. Qed.

(** A complete line at the head of the input is parsed, and the loop goes
    on with what follows it. *)
Lemma readFrom_line (line rest : bytes) (fail : option string) (keys : list authKey) :
  noLF line ->
  readFrom (mkReader (line ++ x0a :: rest) fail) keys =
    match parseAuthKey (line ++ [x0a]) with
    | inr e => ([], Some e)
    | inl k => readFrom (mkReader rest fail) (keys ++ [k])
    end.
Proof.
  intros Hline. unfold readFrom at 1. rewrite readLoop_S. unfold ReadBytes.
  cbn [rd_data rd_fail]. rewrite (IndexByte_app_hit _ _ _ Hline).
  rewrite take_S_app_cons, drop_S_app_cons.
  destruct (parseAuthKey _); [|done].
  apply readLoop_fuel. cbn [rd_data]. rewrite length_app. simpl. lia.
Qed.

(** Input without line feed ends the loop: with the keys collected so far
    when the source ends in io.EOF, with the source's error otherwise. *)
Lemma readFrom_end (tail : bytes) (fail : option string) (keys : list authKey) :
  noLF tail ->
  readFrom (mkReader tail fail) keys =
    match fail with
    | None => (keys, None)
    | Some msg => ([], Some (ext_error msg))
    end.
Proof.
  intros Ht. unfold readFrom. rewrite readLoop_S. unfold ReadBytes.
  cbn [rd_data rd_fail]. rewrite Ht. unfold rd_end. cbn [rd_fail].
  destruct fail; done.
Qed.

(** When the loop reports an error it returns no keys. *)
Lemma readLoop_error_nil (fuel : nat) (r : Reader) (keys ks : list authKey) (e : error) :
  readLoop fuel r keys = (ks, Some e) -> ks = [].
Proof.
  revert r keys. induction fuel as [|fuel IH]; intros r keys; [done|].
  rewrite readLoop_S. destruct (ReadBytes r x0a) as [[line err] rr'].
  destruct err as [e'|].
  - destruct (decide (e' = io_EOF)); congruence.
  - destruct (parseAuthKey line); [apply IH | congruence].
Qed.

(** Decoding complete lines followed by [rest]: the lines are decoded
    first; their error, if any, is the result, and otherwise the loop goes
    on into [rest] with their keys. *)
Lemma readFrom_joinLines (ls : list bytes) (rest : bytes) (fail : option string)
    (keys : list authKey) :
  Forall noLF ls ->
  readFrom (mkReader (joinLines ls ++ rest) fail) keys =
    match readFrom (mkReader (joinLines ls) None) keys with
    | (ks, None) => readFrom (mkReader rest fail) ks
    | (_, Some e) => ([], Some e)
    end.
Proof.
  intros Hls. revert keys. induction Hls as [|l ls Hl Hls IH]; intros keys.
  - change (joinLines []) with (@nil byte). rewrite app_nil_l.
    by rewrite (readFrom_end [] None).
  - change (joinLines (l :: ls)) with ((l ++ [x0a]) ++ joinLines ls).
    rewrite <- !app_assoc. cbn [app].
    rewrite (readFrom_line l (joinLines ls ++ rest)) by done.
    rewrite (readFrom_line l (joinLines ls)) by done.
    destruct (parseAuthKey (l ++ [x0a])); [apply IH | done].
Qed.

Lemma supported_app_LF (line : bytes) :
  supported (line ++ [x0a]) = supported line.
Proof.
  unfold supported.
  rewrite !HasPrefix_app_other; [done|..];
    apply (bool_decide_unpack _); vm_compute; exact I.
Qed.

Lemma parseAuthKey_unsupported (line : bytes) :
  supported line = false -> parseAuthKey line = inr errUnsupportedKeyAlgo.
Proof. intros H. unfold parseAuthKey. by rewrite H. Qed.

Lemma parseAuthKey_supported (line : bytes) :
  supported line = true -> parseAuthKey line ≠ inr errUnsupportedKeyAlgo.
Proof.
  intros H. unfold parseAuthKey. rewrite H. simpl.
  destruct (ParseAuthorizedKey line) as [[k c]|e]; done.
Qed.

(** The errors [readAuthorizedKeys] can return: the two of [parseAuthKey]
    and the read error of the source. *)
Lemma readLoop_error_kind (fuel : nat) (r : Reader) (keys ks : list authKey) (e : error) :
  readLoop fuel r keys = (ks, Some e) ->
  e = errUnsupportedKeyAlgo \/
  (exists e', e = fmt_Errorf "error parsing key: " e' "") \/
  (exists msg, e = ext_error msg).
Proof.
  revert r keys. induction fuel as [|fuel IH]; intros r keys; [done|].
  rewrite readLoop_S. unfold ReadBytes.
  destruct (GoBytes.IndexByte (rd_data r) x0a) as [i|].
  - unfold parseAuthKey. destruct (negb (supported _)).
    + intros [= _ <-]. by left.
    + destruct (ParseAuthorizedKey _) as [[k c]|e'].
      * apply IH.
      * intros [= _ <-]. right. left. by eexists.
  - unfold rd_end. destruct (rd_fail r) as [msg|]; simpl.
    + intros [= _ <-]. right. right. by eexists.
    + done.
Qed.

End CodecFacts.

(** ** Claims about the decoder *)
Section DecoderClaims.
Context `{ssh : SshAPI}.

(** C2. The claim: a final line without terminating newline makes Decode
    fail. The code: [readAuthorizedKeys] leaves the loop on io.EOF and
    throws away what [ReadBytes] returned with it, so the bytes after the
    last line feed have no effect on the result: for every stream, the
    result is that of the stream cut after its last complete line, without
    any error for the unterminated line. *)
Theorem C2_unterminated_line_dropped (ls : list bytes) (tail : bytes) :
  Forall noLF ls -> noLF tail ->
  readAuthorizedKeys (mkReader (joinLines ls ++ tail) None) =
  readAuthorizedKeys (mkReader (joinLines ls) None).
Proof.
  intros Hls Ht. unfold readAuthorizedKeys.
  rewrite readFrom_joinLines by done.
  destruct (readFrom (mkReader (joinLines ls) None) []) as [ks [e|]] eqn:E.
  - by rewrite (readLoop_error_nil _ _ _ _ _ E).
  - by rewrite (readFrom_end tail None).
Qed.

(** What holds of the rejection of unsupported algorithms: a line that
    does not start with the bytes of one of the five identifiers is
    rejected by [parseAuthKey] with [errUnsupportedKeyAlgo], with or
    without its line feed; decoding a stream in which such a line occurs,
    terminated by a line feed and after any number of complete lines,
    returns an error and no records, and the error is
    [errUnsupportedKeyAlgo] when the lines before it decode. *)
Lemma unsupported_prefix_rejected
    (ls : list bytes) (line rest : bytes) (fail : option string) :
  Forall noLF ls -> noLF line -> supported line = false ->
  parseAuthKey line = inr UnsupportedAlgorithm /\
  parseAuthKey (line ++ [x0a]) = inr UnsupportedAlgorithm /\
  exists e,
    readAuthorizedKeys (mkReader (joinLines ls ++ line ++ x0a :: rest) fail)
      = ([], Some e) /\
    (snd (readAuthorizedKeys (mkReader (joinLines ls) None)) = None ->
     e = UnsupportedAlgorithm).
Proof.
  intros Hls Hline Hsup.
  assert (Hp : parseAuthKey (line ++ [x0a]) = inr UnsupportedAlgorithm)
    by (apply parseAuthKey_unsupported; by rewrite supported_app_LF).
  split; [by apply parseAuthKey_unsupported|]. split; [done|].
  unfold readAuthorizedKeys. rewrite readFrom_joinLines by done.
  destruct (readFrom (mkReader (joinLines ls) None) []) as [ks [e|]]; simpl.
  - exists e. split; [done | intros [=]].
  - exists UnsupportedAlgorithm. rewrite readFrom_line by done. rewrite Hp. done.
Qed.

End DecoderClaims.


(** ** The pipeline, step by step *)
Section PipelineFacts.
Context `{ssh : SshAPI} (env : Env).

Lemma rmFile_live (f : File) (w : World) :
  is_Some (handles w !! Name f) -> is_Some (files w !! Name f) ->
  rmFile f w =
    ((), log (EvRemove (Name f))
           (set_files (delete (Name f) (files w))
              (log (EvClose (Name f))
                 (set_handles (delete (Name f) (handles w)) w)))).
Proof.
  intros [off Hh] [c Hf]. unfold rmFile, File_Close, os_Remove.
  unfold mbind, IO_bind, mret, IO_ret. rewrite Hh. cbn. rewrite Hf. done.
Qed.

Lemma MarshalWithComment_nonempty (k : authKey) : MarshalWithComment k ≠ [].
Proof. unfold MarshalWithComment. by destruct (GoBytes.TrimSpace _). Qed.

Ltac io := unfold mbind, IO_bind, mret, IO_ret in *.

Lemma writeAt_end (data c : bytes) : writeAt (length c) data c = c ++ data.
Proof.
  unfold writeAt. rewrite Nat.sub_diag. cbn [replicate].
  rewrite app_nil_r, firstn_all, drop_ge by lia. by rewrite app_nil_r.
Qed.

Lemma wrote_nil (f : File) (w : World) :
  wrote f [] (truncated f w) = truncated f w.
Proof.
  unfold wrote, truncated, set_handles, set_files, log. cbn.
  by rewrite !insert_insert_eq, app_nil_r.
Qed.

(** A write to the file appends a chunk. *)
Lemma File_Write_wrote (f : File) (chunks : list bytes) (data : bytes) (w0 : World) :
  File_Write f data (wrote f chunks w0) = (None, wrote f (chunks ++ [data]) w0).
Proof.
  unfold File_Write, wrote, log, set_handles, set_files. cbn.
  rewrite !lookup_insert_eq. cbn. f_equal.
  rewrite !insert_insert_eq, writeAt_end, concat_app, fmap_app, length_app.
  cbn. rewrite app_nil_r, <- app_assoc. done.
Qed.

#[local] Opaque defaultBufSize.

Lemma Writer_fill_fits (fuel : nat) (wr : Writer) (p : bytes) (w : World) :
  length p <= Writer_Available wr ->
  Writer_fill fuel wr p w
    = ((None, mkWriter (wr_file wr) (wr_buf wr ++ p) (wr_calls wr)), w).
Proof. intros Hfit. destruct fuel; cbn [Writer_fill]; by rewrite decide_True. Qed.

Lemma Writer_fill_direct (fuel : nat) (f : File) (calls : nat) (p : bytes) (w : World) :
  ~ length p <= Writer_Available (mkWriter f [] calls) ->
  Writer_fill (S fuel) (mkWriter f [] calls) p w =
    match File_Write f p w with
    | (Some e, w') => ((Some e, mkWriter f [] calls), w')
    | (None, w') => Writer_fill fuel (mkWriter f [] calls) [] w'
    end.
Proof.
  intros Hbig. cbn [Writer_fill]. rewrite decide_False by done.
  cbn [wr_buf wr_file]. io. by destruct (File_Write f p w) as [[e|] w'].
Qed.

Lemma Writer_fill_flush (fuel : nat) (f : File) (calls : nat) (b : byte)
    (buf p : bytes) (w : World) :
  ~ length p <= Writer_Available (mkWriter f (b :: buf) calls) ->
  Writer_fill (S fuel) (mkWriter f (b :: buf) calls) p w =
    let n := Writer_Available (mkWriter f (b :: buf) calls) in
    match File_Write f ((b :: buf) ++ take n p) w with
    | (Some e, w') => ((Some e, mkWriter f ((b :: buf) ++ take n p) calls), w')
    | (None, w') => Writer_fill fuel (mkWriter f [] calls) (drop n p) w'
    end.
Proof.
  intros Hbig. cbn [Writer_fill]. rewrite decide_False by done.
  cbn [wr_buf wr_file wr_calls]. unfold Writer_flush. cbn [wr_buf wr_file wr_calls app]. io.
  by destruct (File_Write f _ w) as [[e|] w'].
Qed.

Lemma File_Write_error (f : File) (data : bytes) (w : World) (e : error) :
  fst (File_Write f data w) = Some e -> exists msg, e = ext_error msg.
Proof.
  unfold File_Write. destruct (handles w !! Name f), (files w !! Name f);
    intros [= <-]; eauto.
Qed.

(** The loop of [Write] ends within the two turns [Writer_Write] allows,
    on every file and in every state. *)
Lemma Writer_fill_fuel (wr : Writer) (p : bytes) (w : World) :
  match fst (fst (Writer_fill 2 wr p w)) with
  | Some e => exists msg, e = ext_error msg
  | None => True
  end.
Proof.
  destruct wr as [f buf calls].
  destruct (decide (length p <= Writer_Available (mkWriter f buf calls))) as [Hfit|Hbig].
  { by rewrite Writer_fill_fits. }
  assert (Hdirect : forall q w1,
            match fst (fst (Writer_fill 1 (mkWriter f [] calls) q w1)) with
            | Some e => exists msg, e = ext_error msg
            | None => True
            end).
  { intros q w1.
    destruct (decide (length q <= Writer_Available (mkWriter f [] calls))) as [Hq|Hq].
    { by rewrite Writer_fill_fits. }
    rewrite Writer_fill_direct by done.
    pose proof (File_Write_error f q w1) as He.
    destruct (File_Write f q w1) as [[e|] w2]; cbn [fst snd] in *; [by apply He|].
    rewrite Writer_fill_fits by (cbn; lia). done. }
  destruct buf as [|b buf].
  - rewrite Writer_fill_direct by done.
    pose proof (File_Write_error f p w) as He.
    destruct (File_Write f p w) as [[e|] w1]; cbn [fst snd] in *; [by apply He|].
    rewrite Writer_fill_fits by (cbn; lia). done.
  - rewrite Writer_fill_flush by done. cbv zeta.
    pose proof (File_Write_error f ((b :: buf) ++
                  take (Writer_Available (mkWriter f (b :: buf) calls)) p) w) as He.
    destruct (File_Write f _ w) as [[e|] w1]; cbn [fst snd] in He |- *; [by apply He|].
    apply Hdirect.
Qed.
(** One [Write] on the buffered writer: some chunks go to the file, the
    rest stays in the buffer, and nothing is lost or reordered. *)
Lemma Writer_fill_wrote (f : File) (buf p : bytes) (calls : nat)
    (chunks : list bytes) (w0 : World) :
  length buf <= defaultBufSize ->
  exists chunks' buf',
    Writer_fill 2 (mkWriter f buf calls) p (wrote f chunks w0)
      = ((None, mkWriter f buf' calls), wrote f (chunks ++ chunks') w0) /\
    concat chunks' ++ buf' = buf ++ p /\
    length buf' <= defaultBufSize.
Proof.
  intros Hbuf.
  destruct (decide (length p <= Writer_Available (mkWriter f buf calls))) as [Hfit|Hbig].
  { rewrite Writer_fill_fits by done. unfold Writer_Available in Hfit. cbn in Hfit.
    exists [], (buf ++ p). rewrite app_nil_r. split; [done|]. split; [done|].
    rewrite length_app. lia. }
  destruct buf as [|b buf].
  - (* a large write with the buffer empty *)
    rewrite Writer_fill_direct, File_Write_wrote by done.
    rewrite Writer_fill_fits by (cbn; lia).
    exists [p], []. split; [done|]. cbn. rewrite !app_nil_r. split; [done | lia].
  - (* the buffer is filled up and flushed *)
    rewrite Writer_fill_flush by done. cbv zeta.
    set (n := Writer_Available _) in *. rewrite File_Write_wrote.
    destruct (decide (length (drop n p) <= Writer_Available (mkWriter f [] calls)))
      as [Hfit|Hbig'].
    + rewrite Writer_fill_fits by done. unfold Writer_Available in Hfit. cbn in Hfit.
      exists [(b :: buf) ++ take n p], (drop n p). split; [done|].
      split; [|lia]. cbn [concat]. rewrite app_nil_r, <- app_assoc.
      by rewrite take_drop.
    + rewrite Writer_fill_direct, File_Write_wrote by done.
      rewrite Writer_fill_fits by (cbn; lia).
      exists [(b :: buf) ++ take n p; drop n p], []. rewrite <- app_assoc.
      split; [done|]. split; [|cbn; lia].
      cbn [concat]. rewrite !app_nil_r, <- app_assoc. by rewrite take_drop.
Qed.

Lemma writeLoop_wrote (f : File) (keys : list authKey) (buf : bytes) (calls : nat)
    (chunks : list bytes) (w0 : World) :
  length buf <= defaultBufSize ->
  exists chunks' buf' calls',
    writeLoop env (mkWriter f buf calls) keys (wrote f chunks w0)
      = ((writeFailure env calls (length keys), mkWriter f buf' calls'),
         wrote f (chunks ++ chunks') w0) /\
    length buf' <= defaultBufSize /\
    (writeFailure env calls (length keys) = None ->
     concat chunks' ++ buf' = buf ++ flat_map MarshalWithComment keys).
Proof.
  revert buf calls chunks. induction keys as [|k keys IH]; intros buf calls chunks Hbuf.
  - exists [], buf, calls. rewrite !app_nil_r. cbn. unfold writeFailure.
    split; [|done]. destruct (env_writeErr env) as [[i msg]|]; [|done].
    destruct (decide _); [lia | done].
  - cbn [writeLoop]. unfold Writer_Write. cbn [wr_file wr_buf wr_calls].
    destruct (Writer_fill_wrote f buf (MarshalWithComment k) (S calls) chunks w0 Hbuf)
      as (ch1 & buf1 & Hfill & Hcat1 & Hbuf1).
    destruct (IH buf1 (S calls) (chunks ++ ch1) Hbuf1)
      as (ch2 & buf2 & calls2 & Hloop & Hbuf2 & Hcat2).
    assert (Hgo : (writeFailure env calls (length (k :: keys)) = writeFailure env (S calls) (length keys)
                   /\ forall i msg, env_writeErr env = Some (i, msg) -> i ≠ calls) \/
                  exists msg, env_writeErr env = Some (calls, msg) /\
                    writeFailure env calls (length (k :: keys)) = Some (ext_error msg)).
    { unfold writeFailure. cbn [length].
      destruct (env_writeErr env) as [[i msg]|]; [|left; split; [done|]; done].
      destruct (decide (i = calls)) as [->|Hne].
      - right. exists msg. split; [done|]. destruct (decide _); [done | lia].
      - left. split; [|by intros ? ? [= <- <-]].
        repeat destruct (decide _); done || lia. }
    destruct Hgo as [[Heq Hne]|(msg & Hw & Hfail)].
    + rewrite Heq.
      assert (Hrun : match env_writeErr env with
                     | Some (n, msg) =>
                         if decide (n = calls)
                         then mret (Some (ext_error msg), mkWriter f buf (S calls))
                         else Writer_fill 2 (mkWriter f buf (S calls)) (MarshalWithComment k)
                     | None => Writer_fill 2 (mkWriter f buf (S calls)) (MarshalWithComment k)
                     end = Writer_fill 2 (mkWriter f buf (S calls)) (MarshalWithComment k)).
      { destruct (env_writeErr env) as [[i msg]|] eqn:Hw; [|done].
        destruct (decide (i = calls)) as [->|]; [by destruct (Hne _ _ eq_refl) | done]. }
      unfold mbind at 1, IO_bind at 1. rewrite Hrun, Hfill.
      rewrite Hloop. exists (ch1 ++ ch2), buf2, calls2. rewrite app_assoc.
      split; [done|]. split; [done|]. intros Hnone.
      rewrite concat_app, <- app_assoc, (Hcat2 Hnone). cbn [flat_map].
      by rewrite !app_assoc, Hcat1.
    + rewrite Hfail, Hw. rewrite decide_True by done. io.
      exists [], buf, (S calls). rewrite app_nil_r. split; [done|]. split; [done|]. done.
Qed.

Lemma existsb_isPush_writes (n : string) (chunks : list bytes) :
  existsb isPush (EvWrite n <$> chunks) = false.
Proof. by induction chunks. Qed.

Lemma filter_isPush_writes (n : string) (chunks : list bytes) :
  filter (fun e => isPush e = true) (EvWrite n <$> chunks) = [].
Proof.
  induction chunks as [|c chunks IH]; [done|]. cbn [fmap list_fmap].
  by rewrite filter_cons_False.
Qed.

(** [writeAuthorizedKeys] on a file that is there and open, with keys to
    write: the result and the world it leaves. *)
Lemma writeAuthorizedKeys_run (f : File) (keys : list authKey) (dst : string)
    (w : World) :
  live f w -> keys ≠ [] ->
  exists chunks,
    writeAuthorizedKeys env f keys dst w =
      match firstWriteFailure env (length keys) with
      | Some msg =>
          (Some (ext_error msg),
           match env_truncateErr env with
           | Some _ => w
           | None => wrote f chunks (truncated f w)
           end)
      | None =>
          (None, pushed f dst (flat_map MarshalWithComment keys)
                   (wrote f chunks (truncated f w)))
      end /\
    (firstWriteFailure env (length keys) = None ->
     concat chunks = flat_map MarshalWithComment keys).
Proof.
  intros [[off Hh] [c Hf]] Hne. unfold writeAuthorizedKeys, firstWriteFailure.
  destruct (decide (length keys = 0)) as [Hk|Hk].
  { by apply length_zero_iff_nil in Hk. }
  unfold File_Truncate, File_Seek. io. rewrite Hh, Hf.
  destruct (env_truncateErr env); [by exists []|].
  cbn [handles log set_files]. rewrite Hh.
  change (set_handles _ (log _ (set_files _ w))) with (truncated f w).
  destruct (writeLoop_wrote f keys [] 0 [] (truncated f w)) as
    (chunks & buf & calls & Hloop & Hbuf & Hcat); [cbn; lia|].
  rewrite wrote_nil in Hloop.
  unfold NewWriter. rewrite Hloop. cbn [app] in *.
  unfold writeFailure in *.
  destruct (env_writeErr env) as [[i msg]|].
  - destruct (decide (0 <= i < 0 + length keys)) as [Hi|Hi].
    + rewrite decide_True by lia. by exists chunks.
    + rewrite decide_False by lia. specialize (Hcat eq_refl).
      revert Hcat. generalize (flat_map MarshalWithComment keys). intros data Hcat.
      clear Hloop. unfold Writer_Flush, Writer_flush. cbn [wr_buf wr_file wr_calls].
      destruct (env_flushErr env); [by exists chunks|].
      destruct buf as [|b buf].
      * io. rewrite app_nil_r in Hcat. unfold lxcPush, lxc_file_push. io.
        destruct (env_pushErr env); [by exists chunks|].
        cbn [files wrote]. rewrite lookup_insert_eq, Hcat. by exists chunks.
      * io. rewrite File_Write_wrote. unfold lxcPush, lxc_file_push. io.
        destruct (env_pushErr env); [by eexists|].
        cbn [files wrote]. rewrite lookup_insert_eq, concat_app. cbn [concat].
        rewrite app_nil_r, Hcat. eexists. split; [done|]. intros _.
        by rewrite concat_app, <- Hcat; cbn; rewrite app_nil_r.
  - specialize (Hcat eq_refl).
    revert Hcat. generalize (flat_map MarshalWithComment keys). intros data Hcat.
    clear Hloop. unfold Writer_Flush, Writer_flush. cbn [wr_buf wr_file wr_calls].
    destruct (env_flushErr env); [by exists chunks|].
    destruct buf as [|b buf].
    + io. rewrite app_nil_r in Hcat. unfold lxcPush, lxc_file_push. io.
      destruct (env_pushErr env); [by exists chunks|].
      cbn [files wrote]. rewrite lookup_insert_eq, Hcat. by exists chunks.
    + io. rewrite File_Write_wrote. unfold lxcPush, lxc_file_push. io.
      destruct (env_pushErr env); [by eexists|].
      cbn [files wrote]. rewrite lookup_insert_eq, concat_app. cbn [concat].
      rewrite app_nil_r, Hcat. eexists. split; [done|]. intros _.
      by rewrite concat_app, <- Hcat; cbn; rewrite app_nil_r.
Qed.

Lemma writeAuthorizedKeys_error (f : File) (keys : list authKey) (dst : string)
    (w : World) (e : error) :
  fst (writeAuthorizedKeys env f keys dst w) = Some e ->
  (keys = [] /\ e = NoKeysError) \/ (keys ≠ [] /\ exists msg, e = ext_error msg).
Proof.
  destruct keys as [|k keys]; [intros [= <-]; by left|].
  intros He. right. split; [done|]. revert He.
  destruct (handles w !! Name f) as [off|] eqn:Hh.
  2:{ unfold writeAuthorizedKeys, File_Truncate. cbn [length]. io.
      rewrite decide_False by done. rewrite Hh.
      destruct (env_truncateErr env); intros [= <-]; eauto. }
  destruct (files w !! Name f) as [c|] eqn:Hf.
  2:{ unfold writeAuthorizedKeys, File_Truncate. cbn [length]. io.
      rewrite decide_False by done. rewrite Hh, Hf.
      destruct (env_truncateErr env); intros [= <-]; eauto. }
  destruct (writeAuthorizedKeys_run f (k :: keys) dst w) as (chunks & -> & _);
    [by split; eexists | done |].
  destruct (firstWriteFailure env _); intros [= <-]; eauto.
Qed.

Lemma flat_map_MarshalWithComment_nonempty (keys : list authKey) :
  keys ≠ [] -> flat_map MarshalWithComment keys ≠ [].
Proof.
  destruct keys as [|k keys]; [done|]. intros _. simpl.
  pose proof (MarshalWithComment_nonempty k).
  by destruct (MarshalWithComment k).
Qed.

Ltac frame :=
  unfold sameOutput, live, onlyTouches; cbn;
  repeat match goal with
    | |- _ /\ _ => split
    | |- forall _, _ => intros
    end;
  cbn; rewrite ?lookup_insert_eq, ?lookup_insert_ne by done; eauto.

Lemma writeAuthorizedKeys_spec (f : File) (keys : list authKey) (dst : string)
    (w : World) :
  live f w ->
  let '(r, w') := writeAuthorizedKeys env f keys dst w in
  sameOutput w w' /\ live f w' /\ onlyTouches f w w' /\
  exists evs, trace w' = trace w ++ evs /\
    match r with
    | Some e => remote w' = remote w /\ existsb isPush evs = false
    | None =>
        let data := flat_map MarshalWithComment keys in
        keys ≠ [] /\
        remote w' = <[dst := mkRemoteFile data 0 0 "640"]> (remote w) /\
        exists chunks,
          concat chunks = data /\
          evs = EvTruncate (Name f) 0 :: (EvWrite (Name f) <$> chunks)
                  ++ [EvPush (Name f) dst]
    end.
Proof.
  intros Hlive. destruct keys as [|k keys].
  { destruct Hlive as [[off Hh] [c Hf]]. unfold writeAuthorizedKeys.
    rewrite decide_True by done. io.
    frame; try (exists []; by rewrite app_nil_r). }
  destruct (writeAuthorizedKeys_run f (k :: keys) dst w Hlive) as (chunks & -> & Hcat);
    [done|].
  destruct Hlive as [[off Hh] [c Hf]].
  destruct (firstWriteFailure env _) as [msg|].
  - destruct (env_truncateErr env).
    + frame; try (exists []; by rewrite app_nil_r).
    + frame. exists (EvTruncate (Name f) 0 :: (EvWrite (Name f) <$> chunks)).
      rewrite <- app_assoc. split; [done|]. split; [done|].
      cbn. apply existsb_isPush_writes.
  - specialize (Hcat eq_refl). frame.
    exists (EvTruncate (Name f) 0 :: (EvWrite (Name f) <$> chunks)
              ++ [EvPush (Name f) dst]).
    rewrite <- !app_assoc. split; [done|]. split; [done|]. split; [done|].
    by exists chunks.
Qed.

Lemma readLoop_fail (fuel : nat) (r : Reader) (keys : list authKey) (msg : string) :
  rd_fail r = Some msg -> length (rd_data r) < fuel ->
  exists e, readLoop fuel r keys = ([], Some e).
Proof.
  revert r keys. induction fuel as [|fuel IH]; intros r keys Hf Hlen; [lia|].
  rewrite readLoop_S. unfold ReadBytes.
  destruct (GoBytes.IndexByte (rd_data r) x0a) as [i|] eqn:Hi.
  - destruct (parseAuthKey _); [|by eexists].
    apply IH; [done|]. cbn. rewrite length_drop.
    pose proof (IndexByte_lt _ _ _ Hi). lia.
  - unfold rd_end. rewrite Hf. cbn. by eexists.
Qed.

Lemma alreadyPresent_spec (keymarshal : bytes) (keys : list authKey) :
  alreadyPresent keymarshal keys = true <->
  exists k, k ∈ keys /\ Marshal (Key k) = keymarshal.
Proof.
  induction keys as [|k keys IH]; simpl.
  - split; [done|]. intros (k & Hk & _). by apply elem_of_nil in Hk.
  - unfold GoBytes.Equal. case_bool_decide as Heq.
    + split; [|done]. intros _. exists k. split; [left | done].
    + rewrite IH. split.
      * intros (k' & Hk' & Hm). exists k'. split; [by right | done].
      * intros (k' & Hk' & Hm). apply elem_of_cons in Hk' as [->|Hk']; [done|].
        by exists k'.
Qed.

#[local] Arguments realmain_rest : simpl never.
#[local] Arguments rmFile : simpl never.

#[local] Arguments readAuthorizedKeys : simpl never.
#[local] Arguments writeAuthorizedKeys : simpl never.
#[local] Arguments alreadyPresent : simpl never.

Lemma realmain_rest_spec (container : string) (key : authKey) (tmp : File) (w : World) :
  handles w !! Name tmp = Some 0 -> is_Some (files w !! Name tmp) ->
  let p := container +:+ "/root/.ssh/authorized_keys" in
  let '(r, w') := realmain_rest env container key tmp w in
  sameOutput w w' /\ live tmp w' /\ onlyTouches tmp w w' /\
  exists evs, trace w' = trace w ++ evs /\
    match r with
    | Some e =>
        remote w' = remote w /\ existsb isPush evs = false /\
        e ≠ NoKeysError /\
        e ≠ fmt_Errorf "error pushing new authorized_keys: " NoKeysError ""
    | None =>
        exists old keys,
          remote w !! p = Some old /\
          readAuthorizedKeys (mkReader (rf_data old) None) = (keys, None) /\
          alreadyPresent (Marshal (Key key)) keys = false /\
          let data := flat_map MarshalWithComment (keys ++ [key]) in
          remote w' = <[p := mkRemoteFile data 0 0 "640"]> (remote w) /\
          exists chunks,
            concat chunks = data /\
            evs = EvPull p (Name tmp) :: EvTruncate (Name tmp) 0
                    :: (EvWrite (Name tmp) <$> chunks) ++ [EvPush (Name tmp) p]
    end.
Proof.
  intros Hh [c Hf]. cbv zeta. unfold realmain_rest, lxcPull, lxc_file_pull. io.
  destruct (env_pullErr env).
  { frame; try (exists []; by rewrite app_nil_r). }
  destruct (remote w !! _) as [old|] eqn:Hold.
  2:{ frame; try (exists []; by rewrite app_nil_r). }
  unfold File_Reader. cbn. rewrite Hh, lookup_insert_eq. cbn.
  rewrite drop_0.
  set (rd := match env_readErr env with
             | Some (n, msg) => mkReader (take n (rf_data old)) (Some msg)
             | None => mkReader (rf_data old) None
             end).
  destruct (readAuthorizedKeys rd) as [keys [e|]] eqn:Hrd.
  { frame; try (eexists; split; [done|]).
    split; [done|]. split; [done|].
    destruct (readLoop_error_kind _ _ _ _ _ Hrd) as [->|[[e' ->]|[msg ->]]]; done. }
  assert (Hrd' : rd = mkReader (rf_data old) None).
  { subst rd. destruct (env_readErr env) as [[n msg]|]; [|done].
    destruct (readLoop_fail (S (length (take n (rf_data old))))
                (mkReader (take n (rf_data old)) (Some msg)) [] msg) as [e He];
      [done | cbn; lia |].
    unfold readAuthorizedKeys, readFrom in Hrd. cbn in Hrd, He. congruence. }
  destruct (alreadyPresent _ keys) eqn:Hdup.
  { frame; try (eexists; split; [done|]); done. }
  subst rd. rewrite Hrd'. cbn.
  set (w2 := log _ _).
  assert (Hlive : live tmp (set_handles (<[Name tmp := length (rf_data old)]> (handles w2)) w2)).
  { subst w2. frame. }
  pose proof (writeAuthorizedKeys_spec tmp (keys ++ [key])
                (container +:+ "/root/.ssh/authorized_keys") _ Hlive) as Hw.
  pose proof (writeAuthorizedKeys_error tmp (keys ++ [key])
                (container +:+ "/root/.ssh/authorized_keys")
                (set_handles (<[Name tmp := length (rf_data old)]> (handles w2)) w2)) as He.
  destruct (writeAuthorizedKeys _ _ _ _ _) as [r w'].
  destruct Hw as (Hout & Hl & Hot & evs & Htr & Hr).
  subst w2. unfold sameOutput, onlyTouches in *. cbn in Hout, Hot, Htr, Hr, He.
  destruct Hout as [Ho1 Ho2].
  assert (Hot' : forall q : string, q ≠ Name tmp ->
            files w' !! q = files w !! q /\ handles w' !! q = handles w !! q).
  { intros q Hq. destruct (Hot q Hq) as [H1 H2]. rewrite H1, H2.
    by rewrite !lookup_insert_ne by done. }
  destruct r as [e|]; cbn.
  - destruct Hr as [Hrem Hnp].
    split; [done|]. split; [done|]. split; [done|].
    eexists (_ :: evs). rewrite Htr, <- app_assoc.
    split; [done|]. split; [done|]. split; [done|]. split; [done|].
    intros [= Heq]. destruct (He e eq_refl) as [[Hnil _]|[_ [msg ->]]];
      [by destruct keys | done].
  - destruct Hr as (Hne & Hrem & chunks & Hcat & ->).
    split; [done|]. split; [done|]. split; [done|].
    eexists. rewrite Htr, <- app_assoc. split; [done|].
    exists old, keys. rewrite Hrd' in Hrd. cbv zeta.
    repeat (split; [done|]). by exists chunks.
Qed.
Lemma writeAuthorizedKeys_ok (f : File) (keys : list authKey) (dst : string) (w : World) :
  noFailure env -> live f w -> keys ≠ [] ->
  fst (writeAuthorizedKeys env f keys dst w) = None.
Proof.
  intros (_ & _ & _ & Ht & Hw & Hfl & Hp) Hlive Hne.
  destruct (writeAuthorizedKeys_run f keys dst w Hlive Hne) as (chunks & -> & _).
  unfold firstWriteFailure. by rewrite Ht, Hw, Hfl, Hp.
Qed.

(** The path through [realmain_rest] on which the new key is found among
    the old ones. *)
Lemma realmain_rest_duplicate (container : string) (key : authKey) (tmp : File)
    (w : World) (old : RemoteFile) (keys : list authKey) :
  handles w !! Name tmp = Some 0 ->
  env_pullErr env = None ->
  remote w !! (container +:+ "/root/.ssh/authorized_keys") = Some old ->
  env_readErr env = None ->
  readAuthorizedKeys (mkReader (rf_data old) None) = (keys, None) ->
  alreadyPresent (Marshal (Key key)) keys = true ->
  realmain_rest env container key tmp w =
    (Some DuplicateKeyError,
     set_handles (<[Name tmp := length (rf_data old)]> (handles w))
       (log (EvPull (container +:+ "/root/.ssh/authorized_keys") (Name tmp))
          (set_files (<[Name tmp := rf_data old]> (files w)) w))).
Proof.
  intros Hh Hp Hold Hr Hrd Hdup.
  unfold realmain_rest, lxcPull, lxc_file_pull, File_Reader. io.
  rewrite Hp, Hold. cbn. rewrite Hh, Hr, lookup_insert_eq. cbn.
  rewrite ?drop_0.
  rewrite Hrd, Hdup. done.
Qed.

Lemma realmain_rest_ok (container : string) (key : authKey) (tmp : File)
    (w : World) (old : RemoteFile) (keys : list authKey) :
  noFailure env ->
  handles w !! Name tmp = Some 0 -> is_Some (files w !! Name tmp) ->
  remote w !! (container +:+ "/root/.ssh/authorized_keys") = Some old ->
  readAuthorizedKeys (mkReader (rf_data old) None) = (keys, None) ->
  alreadyPresent (Marshal (Key key)) keys = false ->
  fst (realmain_rest env container key tmp w) = None.
Proof.
  intros Hno Hh Hf Hold Hrd Hdup.
  pose proof Hno as (_ & Hp & Hr & _).
  unfold realmain_rest, lxcPull, lxc_file_pull, File_Reader. io.
  rewrite Hp, Hold. cbn. rewrite Hh, Hr, lookup_insert_eq. cbn.
  rewrite ?drop_0.
  rewrite Hrd, Hdup.
  set (w2 := set_handles _ _).
  assert (Hlive : live tmp w2) by (subst w2; frame).
  pose proof (writeAuthorizedKeys_ok tmp (keys ++ [key])
                (container +:+ "/root/.ssh/authorized_keys") w2 Hno Hlive) as Hok.
  destruct (writeAuthorizedKeys _ _ _ _ _) as [r w']. cbn in Hok.
  rewrite Hok; [done | by destruct keys].
Qed.

Lemma realmain_spec (container keyFlag : string) (w : World) :
  let p := container +:+ "/root/.ssh/authorized_keys" in
  let n := env_tempName env in
  let '(r, w') := realmain env container keyFlag w in
  sameOutput w w' /\
  ((w' = w /\ exists e, r = Some e /\ e ≠ NoKeysError /\
      e ≠ fmt_Errorf "error pushing new authorized_keys: " NoKeysError "") \/
   (exists keybuf key mid,
      files w !! keyPath env keyFlag = Some keybuf /\
      parseAuthKey keybuf = inl key /\
      env_tempFileErr env = None /\ files w !! n = None /\
      trace w' = trace w ++ EvCreate n :: mid ++ [EvClose n; EvRemove n] /\
      files w' !! n = None /\ handles w' !! n = None /\
      (forall q : string, q ≠ n -> files w' !! q = files w !! q /\
                                   handles w' !! q = handles w !! q) /\
      match r with
      | Some e =>
          remote w' = remote w /\ existsb isPush mid = false /\
          e ≠ NoKeysError /\
          e ≠ fmt_Errorf "error pushing new authorized_keys: " NoKeysError ""
      | None =>
          exists old keys,
            remote w !! p = Some old /\
            readAuthorizedKeys (mkReader (rf_data old) None) = (keys, None) /\
            alreadyPresent (Marshal (Key key)) keys = false /\
            let data := flat_map MarshalWithComment (keys ++ [key]) in
            remote w' = <[p := mkRemoteFile data 0 0 "640"]> (remote w) /\
            exists chunks,
              concat chunks = data /\
              mid = EvPull p n :: EvTruncate n 0
                      :: (EvWrite n <$> chunks) ++ [EvPush n p]
      end)).
Proof.
  cbv zeta. unfold realmain, ioutil_ReadFile, ioutil_TempFile. fold (keyPath env keyFlag). io.
  destruct (files w !! keyPath env keyFlag) as [keybuf|] eqn:Hkey.
  2:{ split; [done|]. left. split; [done|]. by eexists. }
  destruct (parseAuthKey keybuf) as [key|e] eqn:Hparse.
  2:{ split; [done|]. left. split; [done|]. exists e. split; [done|].
      revert Hparse. unfold parseAuthKey. destruct (negb _); [by intros [= <-]|].
      destruct (ParseAuthorizedKey keybuf) as [[k c]|e']; [done|]. by intros [= <-]. }
  destruct (env_tempFileErr env) as [msg|] eqn:Htmp.
  { split; [done|]. left. split; [done|]. by eexists. }
  destruct (files w !! env_tempName env) as [x|] eqn:Hfree.
  { split; [done|]. left. split; [done|]. by eexists. }
  unfold defer. io.
  set (tmp := mkFile (env_tempName env)).
  set (w1 := log _ _).
  pose proof (realmain_rest_spec container key tmp w1) as Hrest.
  cbv zeta in Hrest.
  assert (Hh1 : handles w1 !! Name tmp = Some 0)
    by (subst w1 tmp; cbn; by rewrite lookup_insert_eq).
  assert (Hf1 : is_Some (files w1 !! Name tmp))
    by (subst w1 tmp; cbn; rewrite lookup_insert_eq; eauto).
  specialize (Hrest Hh1 Hf1).
  destruct (realmain_rest env container key tmp w1) as [r w2].
  destruct Hrest as (Hout & Hlive & Hot & evs & Htr & Hr).
  rewrite (rmFile_live tmp w2) by apply Hlive.
  unfold sameOutput, onlyTouches in *. subst w1 tmp. cbn in *.
  split; [done|]. right. exists keybuf, key, evs.
  rewrite Htr, <- !app_assoc. cbn.
  rewrite !lookup_delete_eq.
  repeat (split; [done|]).
  split.
  { intros q Hq. destruct (Hot q Hq) as [H1 H2].
    rewrite !lookup_delete_ne by done. rewrite H1, H2.
    by rewrite !lookup_insert_ne by done. }
  destruct r as [e|]; [done|].
  destruct Hr as (old & keys & Hold & Hrd & Hdup & Hrem & chunks & Hcat & ->).
  exists old, keys. repeat (split; [done|]). by exists chunks.
Qed.
End PipelineFacts.

(** ** Claims about the pipeline *)
Section PipelineClaims.
Context `{ssh : SshAPI} (env : Env).
Ltac io := unfold mbind, IO_bind, mret, IO_ret in *.
#[local] Arguments readAuthorizedKeys : simpl never.
#[local] Arguments realmain_rest : simpl never.
#[local] Arguments rmFile : simpl never.

(** C1. When the remote file decodes to [keys] and one of them has the
    binary key encoding ([Marshal]) of the new key, whatever its comment,
    [realmain] returns the duplicate-key error; the container is as it
    was, and between the pull and the release of the temporary file
    nothing happens: no truncate, no write, no push. *)
Theorem C1_duplicate_rejected
    (container keyFlag : string) (w : World) (keybuf : bytes)
    (key k : authKey) (old : RemoteFile) (keys : list authKey) :
  files w !! keyPath env keyFlag = Some keybuf ->
  parseAuthKey keybuf = inl key ->
  env_tempFileErr env = None -> files w !! env_tempName env = None ->
  env_pullErr env = None -> remote w !! authKeysPath container = Some old ->
  env_readErr env = None ->
  readAuthorizedKeys (mkReader (rf_data old) None) = (keys, None) ->
  k ∈ keys -> Marshal (Key k) = Marshal (Key key) ->
  exists w',
    realmain env container keyFlag w = (Some DuplicateKeyError, w') /\
    remote w' = remote w /\
    trace w' = trace w ++ [EvCreate (env_tempName env);
                           EvPull (authKeysPath container) (env_tempName env);
                           EvClose (env_tempName env);
                           EvRemove (env_tempName env)] /\
    existsb isWriteEvent [EvCreate (env_tempName env);
                           EvPull (authKeysPath container) (env_tempName env);
                           EvClose (env_tempName env);
                           EvRemove (env_tempName env)] = false.
Proof.
  intros Hkey Hparse Htmp Hfree Hpull Hold Hread Hrd Hk Hm.
  assert (Hdup : alreadyPresent (Marshal (Key key)) keys = true)
    by (rewrite alreadyPresent_spec; by exists k).
  unfold realmain, ioutil_ReadFile, ioutil_TempFile. fold (keyPath env keyFlag).
  io. rewrite Hkey, Hparse, Htmp, Hfree. unfold defer. io.
  erewrite realmain_rest_duplicate; [| by cbn; rewrite lookup_insert_eq | done..].
  rewrite rmFile_live; [| cbn; rewrite lookup_insert_eq; eauto ..].
  eexists. split; [done|]. cbn. rewrite <- !app_assoc. done.
Qed.

(** C4. A run of [realmain] that succeeds has pulled a file that decodes
    to some [keys] not containing the new key, and has pushed the encoding
    of [keys], in their order, followed by the encoding of the new key; for
    the remote records [A; B] and the new key [C], that is [A], then [B],
    then [C]. *)
Theorem C4_order_preserved (container keyFlag : string) (w w' : World) :
  realmain env container keyFlag w = (None, w') ->
  exists keybuf key old keys,
    files w !! keyPath env keyFlag = Some keybuf /\
    parseAuthKey keybuf = inl key /\
    remote w !! authKeysPath container = Some old /\
    readAuthorizedKeys (mkReader (rf_data old) None) = (keys, None) /\
    alreadyPresent (Marshal (Key key)) keys = false /\
    rf_data <$> remote w' !! authKeysPath container =
      Some (flat_map MarshalWithComment keys ++ MarshalWithComment key) /\
    (forall A B : authKey, keys = [A; B] ->
       rf_data <$> remote w' !! authKeysPath container =
         Some (MarshalWithComment A ++ MarshalWithComment B
                 ++ MarshalWithComment key)).
Proof.
  intros Hrun. pose proof (realmain_spec env container keyFlag w) as Hs.
  cbv zeta in Hs. rewrite Hrun in Hs.
  destruct Hs as [_ [[_ (e & [=] & _)]|Hs]].
  destruct Hs as (keybuf & key & mid & Hkey & Hparse & _ & _ & _ & _ & _ & _ & Hr).
  destruct Hr as (old & keys & Hold & Hrd & Hdup & Hrem & _).
  exists keybuf, key, old, keys. repeat (split; [done|]).
  assert (Hdata : rf_data <$> remote w' !! authKeysPath container =
            Some (flat_map MarshalWithComment keys ++ MarshalWithComment key)).
  { rewrite Hrem. unfold authKeysPath. rewrite lookup_insert_eq. cbn.
    rewrite flat_map_app. cbn. by rewrite app_nil_r. }
  split; [done|]. intros A B ->. rewrite Hdata. cbn.
  by rewrite app_nil_r, <- app_assoc.
Qed.

(** C6. For every run of [realmain]: when it returns an error, the
    container is as it was and no push took effect; when it returns no
    error, root's authorized_keys in the container has been replaced, by
    the one push of the run, with the complete new content: the encoding
    of the decoded old keys and the new key. *)
Theorem C6_replaced_or_untouched (container keyFlag : string) (w : World) :
  exists evs,
    trace (snd (realmain env container keyFlag w)) = trace w ++ evs /\
    match realmain env container keyFlag w with
    | (Some _, w') => remote w' = remote w /\ existsb isPush evs = false
    | (None, w') =>
        exists key old keys,
          remote w !! authKeysPath container = Some old /\
          readAuthorizedKeys (mkReader (rf_data old) None) = (keys, None) /\
          remote w' =
            <[authKeysPath container :=
                mkRemoteFile (flat_map MarshalWithComment (keys ++ [key])) 0 0 "640"]>
              (remote w) /\
          filter (fun e => isPush e = true) evs =
            [EvPush (env_tempName env) (authKeysPath container)]
    end.
Proof.
  pose proof (realmain_spec env container keyFlag w) as Hs. cbv zeta in Hs.
  destruct (realmain env container keyFlag w) as [r w'].
  destruct Hs as [_ [[-> (e & -> & _)]|Hs]].
  { exists []. cbn. by rewrite app_nil_r. }
  destruct Hs as (keybuf & key & mid & Hkey & Hparse & _ & _ & Htr & _ & _ & _ & Hr).
  eexists. split; [exact Htr|].
  destruct r as [e|].
  - destruct Hr as (Hrem & Hnp & _). split; [done|]. cbn.
    rewrite existsb_app, Hnp. done.
  - destruct Hr as (old & keys & Hold & Hrd & Hdup & Hrem & chunks & _ & ->).
    exists key, old, keys. repeat (split; [done|]).
    rewrite filter_cons_False, filter_app by done. cbn [app].
    rewrite !filter_cons_False, filter_app, filter_isPush_writes by done.
    done.
Qed.

Lemma realmain_releases (container keyFlag : string) (w : World) :
  snd (realmain env container keyFlag w) = w \/
  exists mid,
    trace (snd (realmain env container keyFlag w)) =
      trace w ++ EvCreate (env_tempName env) :: mid
        ++ [EvClose (env_tempName env); EvRemove (env_tempName env)] /\
    files (snd (realmain env container keyFlag w)) !! env_tempName env = None /\
    handles (snd (realmain env container keyFlag w)) !! env_tempName env = None.
Proof.
  pose proof (realmain_spec env container keyFlag w) as Hs. cbv zeta in Hs.
  destruct (realmain env container keyFlag w) as [r w'].
  destruct Hs as [_ [[-> _]|Hs]]; [by left|]. right.
  destruct Hs as (keybuf & key & mid & _ & _ & _ & _ & Htr & Hf & Hh & _).
  by exists mid.
Qed.

Lemma main_body_releases (keyFlag : string) (args : list string) (w : World) :
  (trace (snd (main_body env keyFlag args w)) = trace w /\
   files (snd (main_body env keyFlag args w)) = files w /\
   handles (snd (main_body env keyFlag args w)) = handles w) \/
  exists mid,
    trace (snd (main_body env keyFlag args w)) =
      trace w ++ EvCreate (env_tempName env) :: mid
        ++ [EvClose (env_tempName env); EvRemove (env_tempName env)] /\
    files (snd (main_body env keyFlag args w)) !! env_tempName env = None /\
    handles (snd (main_body env keyFlag args w)) !! env_tempName env = None.
Proof.
  pose proof (realmain_releases (flag_Arg args 0) keyFlag w) as Hr.
  unfold main_body, printUsage, perr. io.
  destruct (decide (String.length (flag_Arg args 0) = 0)); [by left|].
  destruct (realmain env (flag_Arg args 0) keyFlag w) as [[e|] w']; cbn in *;
    (destruct Hr as [->|Hr]; [by left | by right]).
Qed.

(** C7. For every run of [realmain], for every run of the statements of
    [main] that follow flag parsing, and for every run of [main] on any
    command line, up to the exit of the process: either no temporary file
    was made (the run ended before or in [ioutil.TempFile], and files,
    handles and trace are as they were), or the file was made and,
    whichever way the run went on, the last two things done to files were
    closing and removing it: at the return the file does not exist and its
    handle is closed. *)
Theorem C7_temp_file_released (container keyFlag : string) (args osArgs : list string)
    (w : World) :
  (snd (realmain env container keyFlag w) = w \/
   exists mid,
     trace (snd (realmain env container keyFlag w)) =
       trace w ++ EvCreate (env_tempName env) :: mid
         ++ [EvClose (env_tempName env); EvRemove (env_tempName env)] /\
     files (snd (realmain env container keyFlag w)) !! env_tempName env = None /\
     handles (snd (realmain env container keyFlag w)) !! env_tempName env = None) /\
  ((trace (snd (main_body env keyFlag args w)) = trace w /\
    files (snd (main_body env keyFlag args w)) = files w /\
    handles (snd (main_body env keyFlag args w)) = handles w) \/
   exists mid,
     trace (snd (main_body env keyFlag args w)) =
       trace w ++ EvCreate (env_tempName env) :: mid
         ++ [EvClose (env_tempName env); EvRemove (env_tempName env)] /\
     files (snd (main_body env keyFlag args w)) !! env_tempName env = None /\
     handles (snd (main_body env keyFlag args w)) !! env_tempName env = None) /\
  ((trace (snd (main env osArgs w)) = trace w /\
    files (snd (main env osArgs w)) = files w /\
    handles (snd (main env osArgs w)) = handles w) \/
   exists mid,
     trace (snd (main env osArgs w)) =
       trace w ++ EvCreate (env_tempName env) :: mid
         ++ [EvClose (env_tempName env); EvRemove (env_tempName env)] /\
     files (snd (main env osArgs w)) !! env_tempName env = None /\
     handles (snd (main env osArgs w)) !! env_tempName env = None).
Proof.
  split; [apply realmain_releases|]. split; [apply main_body_releases|].
  unfold main. destruct (GoFlag.Parse osArgs) as [kf positional|msg|];
    [apply main_body_releases | by left | by left].
Qed.

(** What the statements of [main] after flag parsing print and return. *)
Lemma main_body_exit (keyFlag : string) (args : list string) (w : World) :
  stdout (snd (main_body env keyFlag args w)) = stdout w /\
  match decide (flag_Arg args 0 = ""),
        fst (realmain env (flag_Arg args 0) keyFlag w) with
  | left _, _ =>
      fst (main_body env keyFlag args w) = 1 /\
      stderr (snd (main_body env keyFlag args w)) = stderr w +:+ usage env
  | right _, Some e =>
      fst (main_body env keyFlag args w) = 1 /\
      stderr (snd (main_body env keyFlag args w)) =
        stderr w +:+ "Error: " +:+ Error e +:+ LF
  | right _, None =>
      fst (main_body env keyFlag args w) = 0 /\
      stderr (snd (main_body env keyFlag args w)) = stderr w
  end.
Proof.
  pose proof (realmain_spec env (flag_Arg args 0) keyFlag w) as Hs. cbv zeta in Hs.
  unfold main_body, printUsage, perr. io.
  split.
  - destruct (decide (String.length (flag_Arg args 0) = 0)); [done|].
    destruct (realmain env _ keyFlag w) as [[e|] w']; cbn; apply Hs.
  - destruct (decide (flag_Arg args 0 = "")) as [Heq|Hne].
    + rewrite Heq. cbn. done.
    + destruct (decide (String.length (flag_Arg args 0) = 0)) as [Hl|Hl].
      { by destruct (flag_Arg args 0). }
      destruct (realmain env _ keyFlag w) as [[e|] w']; cbn;
        destruct Hs as [[_ ->] _]; done.
Qed.

(** C8, amended. For every command line: when [flag.Parse] accepts it,
    then without a container argument the program prints the usage
    message to standard error and exits with code 1; when [realmain]
    returns an error [e] it prints [Error: ] followed by the message of
    [e] and a line feed to standard error and exits with code 1; when
    [realmain] returns no error it exits with code 0 and has printed
    nothing. When [flag.Parse] finds a flag in error, the process prints
    that error and the usage of the flags and exits with code 2; for [-h]
    and [-help] it prints the usage of the flags and exits with code 0; in
    both cases nothing is done to files or containers. Standard output is
    never written. *)
Theorem C8_exit_codes (osArgs : list string) (w : World) :
  stdout (snd (main env osArgs w)) = stdout w /\
  flag_Arg [] 0 = "" /\
  match GoFlag.Parse osArgs with
  | GoFlag.Parsed keyFlag args =>
      match decide (flag_Arg args 0 = ""),
            fst (realmain env (flag_Arg args 0) keyFlag w) with
      | left _, _ =>
          fst (main env osArgs w) = 1 /\
          stderr (snd (main env osArgs w)) = stderr w +:+ usage env
      | right _, Some e =>
          fst (main env osArgs w) = 1 /\
          stderr (snd (main env osArgs w)) =
            stderr w +:+ "Error: " +:+ Error e +:+ LF
      | right _, None =>
          fst (main env osArgs w) = 0 /\
          stderr (snd (main env osArgs w)) = stderr w
      end
  | GoFlag.ParseError msg =>
      fst (main env osArgs w) = 2 /\
      stderr (snd (main env osArgs w)) = stderr w +:+ msg +:+ LF +:+ flagUsage env /\
      files (snd (main env osArgs w)) = files w /\
      remote (snd (main env osArgs w)) = remote w /\
      trace (snd (main env osArgs w)) = trace w
  | GoFlag.ParseHelp =>
      fst (main env osArgs w) = 0 /\
      stderr (snd (main env osArgs w)) = stderr w +:+ flagUsage env /\
      files (snd (main env osArgs w)) = files w /\
      remote (snd (main env osArgs w)) = remote w /\
      trace (snd (main env osArgs w)) = trace w
  end.
Proof.
  unfold main.
  destruct (GoFlag.Parse osArgs) as [keyFlag args|msg|]; [|done|done].
  destruct (main_body_exit keyFlag args w) as [Hout Hexit]. done.
Qed.

(** C9. [writeAuthorizedKeys] returns the no-keys error exactly when it
    is given the empty sequence, and [realmain] never returns that error,
    neither as it is nor in the wrapping [realmain] puts around the errors
    of [writeAuthorizedKeys]: the sequence it passes ends with the new key. *)
Theorem C9_no_keys_error_unreachable :
  (forall (f : File) (keys : list authKey) (dstPath : string) (w : World),
     fst (writeAuthorizedKeys env f keys dstPath w) = Some NoKeysError <-> keys = []) /\
  (forall (container keyFlag : string) (w : World),
     fst (realmain env container keyFlag w) ≠ Some NoKeysError /\
     fst (realmain env container keyFlag w) ≠
       Some (fmt_Errorf "error pushing new authorized_keys: " NoKeysError "")).
Proof.
  split.
  - intros f keys dstPath w. split.
    + intros He. destruct (writeAuthorizedKeys_error env f keys dstPath w _ He)
        as [[-> _]|[_ [msg [=]]]]. done.
    + intros ->. done.
  - intros container keyFlag w.
    pose proof (realmain_spec env container keyFlag w) as Hs. cbv zeta in Hs.
    destruct (realmain env container keyFlag w) as [r w']. cbn.
    destruct Hs as [_ [[_ (e & -> & H1 & H2)]|Hs]]; [split; congruence|].
    destruct Hs as (keybuf & key & mid & _ & _ & _ & _ & _ & _ & _ & _ & Hr).
    destruct r as [e|]; [|done].
    destruct Hr as (_ & _ & H1 & H2). split; congruence.
Qed.

(** C10. The decoder returns no records and no error for empty input;
    and when root's authorized_keys in the container is empty, the local
    key file parses, the name for the temporary file is free and nothing
    in the environment fails, [realmain] succeeds and leaves in the
    container a file that holds the encoding of the new key and nothing
    else. *)
Theorem C10_empty_remote_file
    (container keyFlag : string) (w : World) (keybuf : bytes) (key : authKey)
    (old : RemoteFile) :
  noFailure env ->
  files w !! keyPath env keyFlag = Some keybuf ->
  parseAuthKey keybuf = inl key ->
  files w !! env_tempName env = None ->
  remote w !! authKeysPath container = Some old ->
  rf_data old = [] ->
  readAuthorizedKeys (mkReader [] None) = ([], None) /\
  exists w',
    realmain env container keyFlag w = (None, w') /\
    remote w' =
      <[authKeysPath container := mkRemoteFile (MarshalWithComment key) 0 0 "640"]>
        (remote w).
Proof.
  intros Hno Hkey Hparse Hfree Hold Hempty.
  assert (Hrd : readAuthorizedKeys (mkReader [] None) = ([], None))
    by (by unfold readAuthorizedKeys; rewrite (readFrom_end [] None)).
  split; [done|].
  pose proof (realmain_spec env container keyFlag w) as Hs. cbv zeta in Hs.
  assert (Hok : fst (realmain env container keyFlag w) = None).
  { unfold realmain, ioutil_ReadFile, ioutil_TempFile. fold (keyPath env keyFlag).
    io. pose proof Hno as (Htmp & _). rewrite Hkey, Hparse, Htmp, Hfree.
    unfold defer. io.
    pose proof (realmain_rest_ok env container key (mkFile (env_tempName env))
                  (log (EvCreate (env_tempName env))
                     (set_handles (<[env_tempName env:=0]> (handles w))
                        (set_files (<[env_tempName env:=[]]> (files w)) w)))
                  old [] Hno) as Hrest.
    destruct (realmain_rest _ _ _ _ _) as [r w1].
    destruct (rmFile _ w1) as [[] w2]. cbn in *. apply Hrest.
    - by rewrite lookup_insert_eq.
    - rewrite lookup_insert_eq. eauto.
    - done.
    - by rewrite Hempty.
    - done. }
  destruct (realmain env container keyFlag w) as [r w']. cbn in Hok. subst r.
  exists w'. split; [done|].
  destruct Hs as [_ [[_ (e & [=] & _)]|Hs]].
  destruct Hs as (keybuf' & key' & mid & Hkey' & Hparse' & _ & _ & _ & _ & _ & _ & Hr).
  destruct Hr as (old' & keys & Hold' & Hrd' & _ & Hrem & _).
  unfold authKeysPath in *. simplify_eq.
  rewrite Hempty, Hrd in Hrd'. simplify_eq. rewrite Hrem. cbn.
  rewrite app_nil_r. congruence.
Qed.

End PipelineClaims.

(** ** base64: decoding undoes encoding *)
Section Base64Facts.
Import Base64.

Lemma decodeMap_encodeChar (v : nat) :
  v < 64 -> decodeMap (encodeChar v) = Some v.
Proof. intros H. do 64 (destruct v as [|v]; [reflexivity|]). lia. Qed.

Lemma encodeChar_not_pad (v : nat) :
  v < 64 -> Byte.eqb (encodeChar v) padChar = false.
Proof. intros H. do 64 (destruct v as [|v]; [reflexivity|]). lia. Qed.

Lemma encodeChar_graphic (v : nat) : v < 64 -> graphic (encodeChar v) = true.
Proof. intros H. do 64 (destruct v as [|v]; [reflexivity|]). lia. Qed.

Ltac euclid := zify; Z.to_euclidean_division_equations; lia.

Lemma byteOf_to_nat (n : nat) (x : byte) :
  n mod 256 = Byte.to_nat x -> byteOf n = x.
Proof. intros H. unfold byteOf. by rewrite H, Byte.of_to_nat. Qed.

Lemma to_nat_lt (x : byte) : Byte.to_nat x < 256.
Proof. pose proof (Byte.to_nat_bounded x). lia. Qed.

#[local] Arguments Nat.div : simpl never.
#[local] Arguments Nat.modulo : simpl never.

Lemma decodeQuanta_Encode (src : bytes) : decodeQuanta (Encode src) = inl src.
Proof.
  induction src as [src IH] using (induction_ltof1 _ (@length byte)).
  unfold ltof in IH.
  destruct src as [|a [|b [|c src]]]; [done|..].
  - pose proof (to_nat_lt a). cbn [Encode decodeQuanta].
    rewrite !decodeMap_encodeChar by euclid. cbn.
    f_equal. f_equal. apply byteOf_to_nat. euclid.
  - pose proof (to_nat_lt a). pose proof (to_nat_lt b). cbn [Encode decodeQuanta].
    rewrite !decodeMap_encodeChar, !encodeChar_not_pad by euclid. cbn.
    f_equal. f_equal; [|f_equal]; apply byteOf_to_nat; euclid.
  - pose proof (to_nat_lt a). pose proof (to_nat_lt b). pose proof (to_nat_lt c).
    cbn [Encode decodeQuanta].
    rewrite !decodeMap_encodeChar, !encodeChar_not_pad by euclid.
    rewrite IH by (cbn; lia).
    f_equal. f_equal; [|f_equal; [|f_equal]]; apply byteOf_to_nat; euclid.
Qed.

Lemma Encode_graphic (src : bytes) : forallb graphic (Encode src) = true.
Proof.
  induction src as [src IH] using (induction_ltof1 _ (@length byte)).
  unfold ltof in IH.
  destruct src as [|a [|b [|c src]]]; [done|..].
  - pose proof (to_nat_lt a). cbn [Encode forallb].
    rewrite !encodeChar_graphic by euclid. done.
  - pose proof (to_nat_lt a). pose proof (to_nat_lt b). cbn [Encode forallb].
    rewrite !encodeChar_graphic by euclid. done.
  - pose proof (to_nat_lt a). pose proof (to_nat_lt b). pose proof (to_nat_lt c).
    cbn [Encode forallb].
    rewrite !encodeChar_graphic by euclid. rewrite IH by (cbn; lia). done.
Qed.

Lemma Encode_nonempty (src : bytes) : src ≠ [] -> Encode src ≠ [].
Proof. by destruct src as [|a [|b [|c src]]]. Qed.

End Base64Facts.

(** ** White space and tokens *)
Section TrimFacts.
Import GoBytes.

Lemma trimFront_length (runes : list bytes) (skip : nat) (s : bytes) :
  length (trimFront runes skip s) <= length s.
Proof.
  revert skip. induction s as [|b s IH]; intros skip; [done|].
  cbn [trimFront]. destruct skip as [|n].
  - destruct (spaceWidth runes (b :: s)) as [|n]; [done|].
    specialize (IH n). cbn. lia.
  - specialize (IH n). cbn. lia.
Qed.

Lemma trimFront_stop (runes : list bytes) (s : bytes) :
  spaceWidth runes s = 0 -> trimFront runes 0 s = s.
Proof. intros H. destruct s as [|b s]; [done|]. cbn [trimFront]. by rewrite H. Qed.

Lemma trimFront_fixed (runes : list bytes) (s : bytes) :
  s ≠ [] -> trimFront runes 0 s = s -> spaceWidth runes s = 0.
Proof.
  destruct s as [|b s]; [done|]. intros _. cbn [trimFront].
  destruct (spaceWidth runes (b :: s)) as [|n]; [done|].
  intros H. pose proof (trimFront_length runes n s) as Hl.
  rewrite H in Hl. cbn in Hl. lia.
Qed.

Lemma trimFront_cases (runes : list bytes) (s : bytes) :
  trimFront runes 0 s = s \/ length (trimFront runes 0 s) < length s.
Proof.
  destruct s as [|b s]; [by left|]. cbn [trimFront].
  destruct (spaceWidth runes (b :: s)) as [|n]; [by left|]. right.
  pose proof (trimFront_length runes n s). cbn. lia.
Qed.

Lemma spaceWidth_graphic (b : byte) (s : bytes) :
  graphic b = true -> spaceWidth spaceRunes (b :: s) = 0.
Proof. intros H. destruct b; try discriminate H; reflexivity. Qed.

Lemma spaceWidth_rev_graphic (b : byte) (s : bytes) :
  graphic b = true -> spaceWidth (map (@rev byte) spaceRunes) (b :: s) = 0.
Proof. intros H. destruct b; try discriminate H; reflexivity. Qed.

Lemma TrimLeftSpace_graphic (b : byte) (s : bytes) :
  graphic b = true -> TrimLeftSpace (b :: s) = b :: s.
Proof. intros H. apply trimFront_stop. by apply spaceWidth_graphic. Qed.

Lemma TrimLeftSpace_space (s : bytes) : TrimLeftSpace (x20 :: s) = TrimLeftSpace s.
Proof. reflexivity. Qed.

Lemma TrimRightSpace_graphic (s : bytes) (b : byte) :
  graphic b = true -> TrimRightSpace (s ++ [b]) = s ++ [b].
Proof.
  intros H. unfold TrimRightSpace. rewrite rev_unit.
  rewrite trimFront_stop by (by apply spaceWidth_rev_graphic).
  cbn [rev]. by rewrite rev_involutive.
Qed.

Lemma TrimRightSpace_space (s : bytes) :
  TrimRightSpace (s ++ [x20]) = TrimRightSpace s.
Proof. unfold TrimRightSpace. by rewrite rev_unit. Qed.

Lemma TrimRightSpace_LF (s : bytes) :
  TrimRightSpace (s ++ [x0a]) = TrimRightSpace s.
Proof. unfold TrimRightSpace. by rewrite rev_unit. Qed.

Lemma TrimRightSpace_nil : TrimRightSpace [] = [].
Proof. reflexivity. Qed.

(** What [TrimSpace] leaves unchanged, each of its two passes leaves
    unchanged. *)
Lemma TrimSpace_fixed (c : bytes) :
  TrimSpace c = c -> TrimLeftSpace c = c /\ TrimRightSpace c = c.
Proof.
  unfold TrimSpace. intros H.
  assert (Hr : length (TrimRightSpace (TrimLeftSpace c)) <= length (TrimLeftSpace c)).
  { unfold TrimRightSpace. rewrite length_rev.
    etrans; [apply trimFront_length|]. by rewrite length_rev. }
  destruct (trimFront_cases spaceRunes c) as [Hl|Hl]; fold (TrimLeftSpace c) in Hl.
  - split; [done|]. by rewrite Hl in H.
  - rewrite H in Hr. lia.
Qed.

Lemma HasPrefix_app_sep (s u r : bytes) (x : byte) :
  HasPrefix (s ++ x :: u) r = true ->
  HasPrefix s r = true \/ x ∈ drop (length s) r.
Proof.
  revert r. induction s as [|b s IH]; intros r.
  - destruct r as [|r0 r]; [by left|]. cbn. intros H. right.
    apply andb_true_iff in H as [H _]. apply Byte.byte_dec_bl in H as ->. left.
  - destruct r as [|r0 r]; [by left|]. cbn.
    intros H. apply andb_true_iff in H as [H1 H2].
    rewrite H1. cbn. by apply IH.
Qed.

Lemma spaceWidth_0_iff (runes : list bytes) (s : bytes) :
  [] ∉ runes ->
  spaceWidth runes s = 0 <-> forall r, r ∈ runes -> HasPrefix s r = false.
Proof.
  intros Hne. unfold spaceWidth. split.
  - destruct (find (HasPrefix s) runes) as [r|] eqn:Hf.
    + apply find_some in Hf as [Hin _]. apply list_elem_of_In in Hin.
      destruct r; [done | discriminate].
    + intros _ r Hr. apply list_elem_of_In in Hr.
      by apply (find_none _ _ Hf).
  - intros H. destruct (find (HasPrefix s) runes) as [r|] eqn:Hf; [|done].
    apply find_some in Hf as [Hin Hp]. apply list_elem_of_In in Hin.
    rewrite (H r Hin) in Hp. done.
Qed.

(** A trimmed, non-empty piece stays as it is when it stands after a
    space: no white-space rune has a space in its second or third byte. *)
Lemma TrimRightSpace_after_space (a c : bytes) :
  c ≠ [] -> TrimRightSpace c = c ->
  TrimRightSpace (a ++ x20 :: c) = a ++ x20 :: c.
Proof.
  intros Hne Hc. unfold TrimRightSpace in *.
  assert (Hrev : rev c ≠ []) by (intros E; apply Hne; by rewrite <- (rev_involutive c), E).
  assert (Hfix : trimFront (map (@rev byte) spaceRunes) 0 (rev c) = rev c).
  { rewrite <- (rev_involutive (trimFront _ _ _)), Hc. done. }
  pose proof (trimFront_fixed _ _ Hrev Hfix) as Hw.
  assert (Hnil : [] ∉ map (@rev byte) spaceRunes)
    by (apply (bool_decide_unpack _); vm_compute; exact I).
  rewrite rev_app_distr. cbn [rev]. rewrite <- app_assoc. cbn [app].
  rewrite trimFront_stop.
  { rewrite rev_app_distr. cbn [rev]. rewrite !rev_involutive.
    by rewrite <- app_assoc. }
  apply spaceWidth_0_iff; [done|]. intros r Hr.
  destruct (HasPrefix (rev c ++ x20 :: rev a) r) eqn:Hp; [|done].
  apply HasPrefix_app_sep in Hp as [Hp|Hp].
  - rewrite (proj1 (spaceWidth_0_iff _ _ Hnil) Hw r Hr) in Hp. done.
  - exfalso. destruct (rev c) as [|c0 c']; [done|]. cbn [length] in Hp.
    assert (Htab : Forall (fun r : bytes => x20 ∉ tail r) (map (@rev byte) spaceRunes))
      by (apply (bool_decide_unpack _); vm_compute; exact I).
    rewrite Forall_forall in Htab. apply (Htab r Hr).
    destruct r as [|r0 r]; [by rewrite drop_nil in Hp; apply elem_of_nil in Hp|].
    cbn in *. eapply subseteq_drop; done.
Qed.

End TrimFacts.



Section IndexFacts.
Import GoBytes.

Lemma IndexAny_None_app (s t chars : bytes) :
  IndexAny s chars = None -> IndexAny t chars = None ->
  IndexAny (s ++ t) chars = None.
Proof.
  induction s as [|b s IH]; cbn; [done|].
  destruct (existsb _ chars); [done|]. intros H Ht.
  destruct (IndexAny s chars) eqn:E; [done|]. by rewrite IH.
Qed.

Lemma IndexAny_app_hit (s t chars : bytes) (c : byte) :
  IndexAny s chars = None -> existsb (Byte.eqb c) chars = true ->
  IndexAny (s ++ c :: t) chars = Some (length s).
Proof.
  induction s as [|b s IH]; cbn.
  - intros _ ->. done.
  - destruct (existsb (Byte.eqb b) chars); [done|]. intros H Hc.
    destruct (IndexAny s chars) eqn:E; [done|]. by rewrite IH.
Qed.

Lemma graphic_not_space (b : byte) :
  graphic b = true ->
  existsb (Byte.eqb b) [x20; x09] = false /\
  Byte.eqb b x0a = false /\ Byte.eqb b x0d = false /\ Byte.eqb b x20 = false.
Proof. intros H. destruct b; try discriminate H; done. Qed.

Lemma IndexAny_graphic (s : bytes) :
  forallb graphic s = true -> IndexAny s [x20; x09] = None.
Proof.
  induction s as [|b s IH]; [done|]. cbn [forallb IndexAny].
  intros H. apply andb_true_iff in H as [Hb Hs].
  destruct (graphic_not_space b Hb) as (-> & _). by rewrite IH.
Qed.

Lemma IndexByte_graphic (s : bytes) :
  forallb graphic s = true ->
  IndexByte s x0a = None /\ IndexByte s x0d = None.
Proof.
  induction s as [|b s IH]; [done|]. cbn [forallb IndexByte].
  intros H. apply andb_true_iff in H as [Hb Hs].
  destruct (graphic_not_space b Hb) as (_ & -> & -> & _).
  destruct (IH Hs) as [-> ->]. done.
Qed.

Lemma IndexByte_space (c : byte) (s : bytes) :
  Byte.eqb x20 c = false -> IndexByte (x20 :: s) c = S <$> IndexByte s c.
Proof. intros H. cbn [IndexByte]. by rewrite H. Qed.

Lemma filter_graphic (s : bytes) :
  forallb graphic s = true ->
  filter (fun c => negb (Byte.eqb c x0a || Byte.eqb c x0d)) s = s.
Proof.
  induction s as [|b s IH]; [done|]. cbn [forallb].
  intros H. apply andb_true_iff in H as [Hb Hs].
  destruct (graphic_not_space b Hb) as (_ & Ha & Hd & _).
  rewrite filter_cons_True by (by rewrite Ha, Hd). by rewrite IH.
Qed.

Lemma TrimSpace_graphic_ends (t0 e : byte) (s : bytes) :
  graphic t0 = true -> graphic e = true ->
  TrimSpace (t0 :: s ++ [e]) = t0 :: s ++ [e].
Proof.
  intros Ht He. unfold TrimSpace. rewrite TrimLeftSpace_graphic by done.
  exact (TrimRightSpace_graphic (t0 :: s) e He).
Qed.

Lemma TrimSpace_graphic_one (t0 : byte) :
  graphic t0 = true -> TrimSpace [t0] = [t0].
Proof.
  intros Ht. unfold TrimSpace. rewrite TrimLeftSpace_graphic by done.
  exact (TrimRightSpace_graphic [] t0 Ht).
Qed.

(** A non-empty list of graphic bytes, seen from both ends. *)
Lemma graphic_ends (s : bytes) :
  s ≠ [] -> forallb graphic s = true ->
  exists t0 s', s = t0 :: s' /\ graphic t0 = true /\
    (s' = [] \/ exists s'' e, s' = s'' ++ [e] /\ graphic e = true).
Proof.
  destruct s as [|t0 s']; [done|]. intros _ H. cbn in H.
  apply andb_true_iff in H as [Ht Hs]. exists t0, s'. split; [done|]. split; [done|].
  destruct s' as [|x s'] using rev_ind; [by left|]. right.
  exists s', x. split; [done|]. rewrite forallb_app in Hs.
  apply andb_true_iff in Hs as [_ Hx]. cbn in Hx. by rewrite andb_true_r in Hx.
Qed.

Lemma TrimSpace_graphic (s : bytes) :
  forallb graphic s = true -> TrimSpace s = s.
Proof.
  intros H. destruct s as [|t0 s']; [done|].
  destruct (graphic_ends (t0 :: s')) as (t & s'' & [= <- <-] & Ht & [->|(s3 & e & -> & He)]);
    [done | done | by apply TrimSpace_graphic_one | by apply TrimSpace_graphic_ends].
Qed.

End IndexFacts.
(** ** The round trip through the textual layer *)
Section TextFacts.
Context `{keys : SshKeys}.
Import GoBytes.
#[local] Existing Instance SshText.api.
Ltac euclid := zify; Z.to_euclidean_division_equations; lia.

(** What the proof uses of an identifier [T]: graphic bytes, at least one,
    not starting with [#], and accepted by the prefix test of
    [parseAuthKey]. *)
Lemma identifier_facts (T : string) :
  T ∈ identifiers ->
  forallb graphic (String.list_byte_of_string T) = true /\
  (exists t0 T', String.list_byte_of_string T = t0 :: T' /\ Byte.eqb t0 x23 = false) /\
  (forall rest, supported (String.list_byte_of_string T ++ rest) = true).
Proof.
  unfold identifiers. rewrite !elem_of_cons, elem_of_nil.
  intros [->|[->|[->|[->|[->|[]]]]]];
    (split; [reflexivity|]; split; [by eexists _, _|]; intros rest; reflexivity).
Qed.

Lemma graphic_last (s : bytes) :
  s ≠ [] -> forallb graphic s = true ->
  exists s' e, s = s' ++ [e] /\ graphic e = true.
Proof.
  destruct s as [|x s'] using rev_ind; [done|]. intros _ H.
  exists s', x. split; [done|]. rewrite forallb_app in H.
  apply andb_true_iff in H as [_ Hx]. cbn in Hx. by rewrite andb_true_r in Hx.
Qed.

(** The token [TrimSpace] leaves of an encoded key: the algorithm name, a
    space, the base64 text. *)
Lemma TrimSpace_MarshalAuthorizedKey (k : KeyT) :
  supportedKey k -> KeyMarshal k ≠ [] ->
  TrimSpace (SshText.MarshalAuthorizedKey k) =
    String.list_byte_of_string (KeyType k) ++ x20 :: Base64.Encode (KeyMarshal k).
Proof.
  intros Hs Hne. unfold SshText.MarshalAuthorizedKey.
  destruct (identifier_facts _ Hs) as (HT & (t0 & T' & HT0 & _) & _).
  pose proof (Encode_graphic (KeyMarshal k)) as HE.
  destruct (graphic_last _ (Encode_nonempty _ Hne) HE) as (E' & e & HE0 & He).
  rewrite HT0 in HT |- *. cbn in HT. apply andb_true_iff in HT as [Ht0 _].
  rewrite HE0. unfold TrimSpace. cbn [app].
  rewrite TrimLeftSpace_graphic by done.
  replace (t0 :: T' ++ x20 :: (E' ++ [e]) ++ [x0a])
    with (((t0 :: T' ++ x20 :: E') ++ [e]) ++ [x0a])
    by (cbn; by rewrite <- !app_assoc).
  rewrite TrimRightSpace_LF, TrimRightSpace_graphic by done.
  cbn. by rewrite <- !app_assoc.
Qed.
Lemma TrimSpace_space_front (s : bytes) : TrimSpace (x20 :: s) = TrimSpace s.
Proof. reflexivity. Qed.

Lemma Decode_Encode (blob : bytes) : Base64.Decode (Base64.Encode blob) = inl blob.
Proof.
  unfold Base64.Decode. rewrite filter_graphic by apply Encode_graphic.
  apply decodeQuanta_Encode.
Qed.

(** [parseAuthorizedKey] on the rest of an encoded line: the base64 text
    alone, or the base64 text, a space and the comment. *)
Lemma parseAuthorizedKey_encoded (k : KeyT) (c : bytes) :
  libraryKey k -> TrimSpace c = c ->
  SshText.parseAuthorizedKey
    (x20 :: Base64.Encode (KeyMarshal k) ++ match c with [] => [] | _ => x20 :: c end)
  = inl (k, String.string_of_list_byte c).
Proof.
  intros [Hne Hparse] Hc. unfold SshText.parseAuthorizedKey.
  pose proof (Encode_graphic (KeyMarshal k)) as HE.
  pose proof (Encode_nonempty _ Hne) as HEne.
  set (E := Base64.Encode (KeyMarshal k)) in *.
  rewrite TrimSpace_space_front.
  destruct c as [|c0 c].
  - rewrite app_nil_r, TrimSpace_graphic by done.
    rewrite IndexAny_graphic by done. cbn [default from_option].
    rewrite firstn_all, drop_all. subst E. rewrite Decode_Encode, Hparse. done.
  - assert (Htrim : TrimSpace (E ++ x20 :: c0 :: c) = E ++ x20 :: c0 :: c).
    { unfold TrimSpace. destruct E as [|e0 E']; [done|].
      cbn in HE. apply andb_true_iff in HE as [He0 _].
      cbn [app]. rewrite TrimLeftSpace_graphic by done.
      apply (TrimRightSpace_after_space (e0 :: E') (c0 :: c)); [done|].
      by apply TrimSpace_fixed. }
    rewrite Htrim.
    rewrite (IndexAny_app_hit E _ _ x20) by (by try apply IndexAny_graphic).
    cbn [default from_option id]. rewrite take_app_length, drop_app_length.
    subst E. rewrite Decode_Encode, Hparse.
    by rewrite TrimSpace_space_front, Hc.
Qed.

(** One encoded line, without its line feed, through [parseLine]. *)
Lemma parseLine_encoded (k : KeyT) (c : bytes) :
  supportedKey k -> libraryKey k ->
  IndexByte c x0d = None -> TrimSpace c = c ->
  SshText.parseLine
    (String.list_byte_of_string (KeyType k) ++ x20 :: Base64.Encode (KeyMarshal k)
       ++ x20 :: c)
  = Some (k, String.string_of_list_byte c).
Proof.
  intros Hs Hlib Hcr Hc. unfold SshText.parseLine.
  destruct (identifier_facts _ Hs) as (HT & (t0 & T' & HT0 & Ht0) & _).
  pose proof (Encode_graphic (KeyMarshal k)) as HE.
  pose proof (Encode_nonempty _ (proj1 Hlib)) as HEne.
  rewrite HT0 in *. clear HT0.
  set (T := t0 :: T') in *.
  set (E := Base64.Encode (KeyMarshal k)) in *.
  assert (Hg0 : graphic t0 = true)
    by (subst T; cbn in HT; by apply andb_true_iff in HT as [? _]).
  assert (Hnocr : IndexByte (T ++ x20 :: E ++ x20 :: c) x0d = None).
  { apply IndexByte_None_app; [by apply IndexByte_graphic|].
    rewrite IndexByte_space by done.
    rewrite IndexByte_None_app; [done | by apply IndexByte_graphic |].
    rewrite IndexByte_space by done. by rewrite Hcr. }
  rewrite Hnocr.
  assert (Htrim : TrimSpace (T ++ x20 :: E ++ x20 :: c) =
            T ++ x20 :: E ++ match c with [] => [] | _ => x20 :: c end).
  { unfold TrimSpace. subst T. cbn [app]. rewrite TrimLeftSpace_graphic by done.
    destruct c as [|c0 c].
    - destruct (graphic_last _ HEne HE) as (E' & e & -> & He).
      replace (t0 :: T' ++ x20 :: (E' ++ [e]) ++ [x20])
        with (((t0 :: T' ++ x20 :: E') ++ [e]) ++ [x20])
        by (cbn; by rewrite <- !app_assoc).
      rewrite TrimRightSpace_space, TrimRightSpace_graphic by done.
      cbn. by rewrite <- !app_assoc, app_nil_r.
    - replace (t0 :: T' ++ x20 :: E ++ x20 :: c0 :: c)
        with ((t0 :: T' ++ x20 :: E) ++ x20 :: c0 :: c)
        by (cbn; by rewrite <- !app_assoc).
      apply TrimRightSpace_after_space; [done|]. by apply TrimSpace_fixed. }
  rewrite Htrim.
  assert (Hhead : T ++ x20 :: E ++ match c with [] => [] | _ => x20 :: c end
                  = t0 :: (T' ++ x20 :: E ++ match c with [] => [] | _ => x20 :: c end))
    by done.
  rewrite Hhead at 1. cbn match. rewrite Ht0.
  rewrite (IndexAny_app_hit T _ _ x20) by (by try apply IndexAny_graphic).
  rewrite drop_app_length. subst E.
  by rewrite parseAuthorizedKey_encoded.
Qed.

(** Every turn of the loop of [ParseAuthorizedKey] that goes on drops a
    line, so any two amounts of fuel above the length of the input give the
    same result. *)
Lemma parseLines_fuel_irrelevant (fuel1 fuel2 : nat) (input : bytes) :
  length input < fuel1 -> length input < fuel2 ->
  SshText.parseLines fuel1 input = SshText.parseLines fuel2 input.
Proof.
  revert fuel2 input.
  induction fuel1 as [|fuel1 IH]; intros [|fuel2] input H1 H2; try lia.
  cbn [SshText.parseLines]. destruct input as [|b input]; [done|].
  destruct (IndexByte (b :: input) x0a) as [e|] eqn:He.
  - destruct (SshText.parseLine _); [done|].
    pose proof (IndexByte_lt _ _ _ He).
    apply IH; rewrite length_drop; cbn [length] in *; lia.
  - destruct (SshText.parseLine _); [done|].
    by destruct fuel1, fuel2.
Qed.

(** An encoded line, with its line feed, through [ParseAuthorizedKey]. *)
Lemma ParseAuthorizedKey_encoded (k : KeyT) (c : bytes) :
  supportedKey k -> libraryKey k ->
  noLF c -> IndexByte c x0d = None -> TrimSpace c = c ->
  SshText.ParseAuthorizedKey
    ((String.list_byte_of_string (KeyType k) ++ x20 :: Base64.Encode (KeyMarshal k)
       ++ x20 :: c) ++ [x0a])
  = inl (k, String.string_of_list_byte c).
Proof.
  intros Hs Hlib Hlf Hcr Hc. unfold SshText.ParseAuthorizedKey.
  pose proof (parseLine_encoded k c Hs Hlib Hcr Hc) as Hline.
  destruct (identifier_facts _ Hs) as (HT & (t0 & T' & HT0 & Ht0) & _).
  pose proof (Encode_graphic (KeyMarshal k)) as HE.
  set (L := _ ++ x20 :: _ ++ x20 :: c) in *.
  assert (HL : noLF L).
  { subst L. unfold noLF. apply IndexByte_None_app; [by apply IndexByte_graphic|].
    rewrite IndexByte_space by done.
    rewrite IndexByte_None_app; [done | by apply IndexByte_graphic |].
    rewrite IndexByte_space by done. by rewrite Hlf. }
  cbn [SshText.parseLines].
  destruct (L ++ [x0a]) as [|l0 L'] eqn:EL; [by destruct L|]. rewrite <- EL.
  rewrite (IndexByte_app_hit L [] x0a HL).
  rewrite take_app_length. by rewrite Hline.
Qed.

Lemma MarshalWithComment_encoded (r : authKey) :
  supportedKey (Key r) -> libraryKey (Key r) ->
  MarshalWithComment r =
    (String.list_byte_of_string (KeyType (Key r))
       ++ x20 :: Base64.Encode (KeyMarshal (Key r))
       ++ x20 :: String.list_byte_of_string (Comment r)) ++ [x0a].
Proof.
  intros Hs [Hne _]. unfold MarshalWithComment.
  change (MarshalAuthorizedKey (Key r)) with (SshText.MarshalAuthorizedKey (Key r)).
  rewrite TrimSpace_MarshalAuthorizedKey by done.
  rewrite <- !app_assoc. cbn. by rewrite <- !app_assoc.
Qed.

(** Encoding a well-formed record gives one line, and [parseAuthKey]
    gives the record back from it. *)
Lemma parseAuthKey_MarshalWithComment (r : authKey) :
  wellFormed r ->
  exists line, noLF line /\ MarshalWithComment r = line ++ [x0a] /\
    parseAuthKey (line ++ [x0a]) = inl r.
Proof.
  intros (Hs & Hlib & Hlf & Hcr & Hc).
  set (line := String.list_byte_of_string (KeyType (Key r))
                 ++ x20 :: Base64.Encode (KeyMarshal (Key r))
                 ++ x20 :: String.list_byte_of_string (Comment r)).
  exists line. split; [|split; [by apply MarshalWithComment_encoded|]].
  - pose proof (Encode_graphic (KeyMarshal (Key r))) as HE.
    destruct (identifier_facts _ Hs) as (HT & _ & _).
    unfold noLF. apply IndexByte_None_app; [by apply IndexByte_graphic|].
    rewrite IndexByte_space by done.
    rewrite IndexByte_None_app; [done | by apply IndexByte_graphic |].
    rewrite IndexByte_space by done. by rewrite Hlf.
  - unfold parseAuthKey.
    destruct (identifier_facts _ Hs) as (_ & _ & Hsup).
    assert (Hs1 : supported (line ++ [x0a]) = true)
      by (subst line; rewrite <- app_assoc; apply Hsup).
    rewrite Hs1. cbn [negb].
    change (ParseAuthorizedKey (line ++ [x0a]))
      with (SshText.ParseAuthorizedKey (line ++ [x0a])).
    subst line. rewrite ParseAuthorizedKey_encoded by done.
    rewrite String.string_of_list_byte_of_string. by destruct r.
Qed.

Lemma readFrom_encoded (rs keys0 : list authKey) :
  Forall wellFormed rs ->
  readFrom (mkReader (flat_map MarshalWithComment rs) None) keys0
    = (keys0 ++ rs, None).
Proof.
  intros Hrs. revert keys0. induction Hrs as [|r rs Hr Hrs IH]; intros keys0.
  - cbn [flat_map]. rewrite (readFrom_end [] None) by done. by rewrite app_nil_r.
  - destruct (parseAuthKey_MarshalWithComment r Hr) as (line & Hline & Henc & Hparse).
    cbn [flat_map]. rewrite Henc, <- app_assoc. cbn [app].
    rewrite readFrom_line by done. rewrite Hparse, IH.
    by rewrite <- app_assoc.
Qed.

(** C3, amended. For every sequence of records with a key of a supported
    algorithm that is a key of the ssh package, and a comment without line
    feed, without carriage return and without white space at its ends:
    encoding each record with [MarshalWithComment] and decoding the
    concatenation with [readAuthorizedKeys] gives the sequence back, the
    same records in the same order. *)
Theorem C3_round_trip (rs : list authKey) :
  Forall wellFormed rs ->
  readAuthorizedKeys (mkReader (flat_map MarshalWithComment rs) None) = (rs, None).
Proof. intros Hrs. unfold readAuthorizedKeys. by rewrite readFrom_encoded. Qed.

(** One line through [parseLine]: the first field is any token of graphic
    bytes that does not start with [#]; the turn does not look at it. *)
Lemma parseLine_token (t0 : byte) (T' : bytes) (k : KeyT) (c : bytes) :
  forallb graphic (t0 :: T') = true -> Byte.eqb t0 x23 = false ->
  libraryKey k -> IndexByte c x0d = None -> TrimSpace c = c ->
  SshText.parseLine
    ((t0 :: T') ++ x20 :: Base64.Encode (KeyMarshal k) ++ x20 :: c)
  = Some (k, String.string_of_list_byte c).
Proof.
  intros HT Ht0 Hlib Hcr Hc. unfold SshText.parseLine.
  pose proof (Encode_graphic (KeyMarshal k)) as HE.
  pose proof (Encode_nonempty _ (proj1 Hlib)) as HEne.
  set (T := t0 :: T') in *.
  set (E := Base64.Encode (KeyMarshal k)) in *.
  assert (Hg0 : graphic t0 = true)
    by (subst T; cbn in HT; by apply andb_true_iff in HT as [? _]).
  assert (Hnocr : IndexByte (T ++ x20 :: E ++ x20 :: c) x0d = None).
  { apply IndexByte_None_app; [by apply IndexByte_graphic|].
    rewrite IndexByte_space by done.
    rewrite IndexByte_None_app; [done | by apply IndexByte_graphic |].
    rewrite IndexByte_space by done. by rewrite Hcr. }
  rewrite Hnocr.
  assert (Htrim : TrimSpace (T ++ x20 :: E ++ x20 :: c) =
            T ++ x20 :: E ++ match c with [] => [] | _ => x20 :: c end).
  { unfold TrimSpace. subst T. cbn [app]. rewrite TrimLeftSpace_graphic by done.
    destruct c as [|c0 c].
    - destruct (graphic_last _ HEne HE) as (E' & e & -> & He).
      replace (t0 :: T' ++ x20 :: (E' ++ [e]) ++ [x20])
        with (((t0 :: T' ++ x20 :: E') ++ [e]) ++ [x20])
        by (cbn; by rewrite <- !app_assoc).
      rewrite TrimRightSpace_space, TrimRightSpace_graphic by done.
      cbn. by rewrite <- !app_assoc, app_nil_r.
    - replace (t0 :: T' ++ x20 :: E ++ x20 :: c0 :: c)
        with ((t0 :: T' ++ x20 :: E) ++ x20 :: c0 :: c)
        by (cbn; by rewrite <- !app_assoc).
      apply TrimRightSpace_after_space; [done|]. by apply TrimSpace_fixed. }
  rewrite Htrim.
  assert (Hhead : T ++ x20 :: E ++ match c with [] => [] | _ => x20 :: c end
                  = t0 :: (T' ++ x20 :: E ++ match c with [] => [] | _ => x20 :: c end))
    by done.
  rewrite Hhead at 1. cbn match. rewrite Ht0.
  rewrite (IndexAny_app_hit T _ _ x20) by (by try apply IndexAny_graphic).
  rewrite drop_app_length. subst E.
  by rewrite parseAuthorizedKey_encoded.
Qed.

Lemma token_line_noLF (tok E c : bytes) :
  forallb graphic tok = true -> forallb graphic E = true -> noLF c ->
  noLF (tok ++ x20 :: E ++ x20 :: c).
Proof.
  intros HT HE Hlf. unfold noLF.
  apply IndexByte_None_app; [by apply IndexByte_graphic|].
  rewrite IndexByte_space by done.
  rewrite IndexByte_None_app; [done | by apply IndexByte_graphic |].
  rewrite IndexByte_space by done. by rewrite Hlf.
Qed.

(** [ParseAuthorizedKey] returns at the first line when [parseLine]
    accepts it. *)
Lemma ParseAuthorizedKey_token (t0 : byte) (T' : bytes) (k : KeyT) (c rest : bytes) :
  forallb graphic (t0 :: T') = true -> Byte.eqb t0 x23 = false ->
  libraryKey k -> noLF c -> IndexByte c x0d = None -> TrimSpace c = c ->
  SshText.ParseAuthorizedKey
    (((t0 :: T') ++ x20 :: Base64.Encode (KeyMarshal k) ++ x20 :: c) ++ x0a :: rest)
  = inl (k, String.string_of_list_byte c).
Proof.
  intros HT Ht0 Hlib Hlf Hcr Hc. unfold SshText.ParseAuthorizedKey.
  pose proof (parseLine_token t0 T' k c HT Ht0 Hlib Hcr Hc) as Hline.
  pose proof (token_line_noLF (t0 :: T') _ c HT (Encode_graphic (KeyMarshal k)) Hlf) as HL.
  set (L := (t0 :: T') ++ x20 :: _ ++ x20 :: c) in *.
  cbn [SshText.parseLines].
  destruct (L ++ x0a :: rest) as [|l0 L'] eqn:EL; [by destruct L|]. rewrite <- EL.
  rewrite (IndexByte_app_hit L rest x0a HL).
  rewrite take_app_length. by rewrite Hline.
Qed.

Lemma extended_identifier (T : string) (ext : bytes) :
  T ∈ identifiers -> ext ≠ [] ->
  String.string_of_list_byte (String.list_byte_of_string T ++ ext) ∉ identifiers.
Proof.
  intros HT Hext Hin.
  assert (exists T2, T2 ∈ identifiers /\
            String.list_byte_of_string T ++ ext = String.list_byte_of_string T2)
    as (T2 & HT2 & Heq).
  { eexists. split; [exact Hin|]. by rewrite String.list_byte_of_string_of_list_byte. }
  clear Hin. unfold identifiers in *. rewrite !elem_of_cons, elem_of_nil in HT, HT2.
  destruct HT as [->|[->|[->|[->|[->|[]]]]]];
    destruct HT2 as [->|[->|[->|[->|[->|[]]]]]];
    cbv in Heq; simplify_eq.
Qed.

Lemma leadingToken_token_line (tok rest : bytes) :
  forallb graphic tok = true ->
  leadingToken (tok ++ x20 :: rest) = String.string_of_list_byte tok.
Proof.
  intros HT. unfold leadingToken.
  assert (Hi : IndexAny tok [x20; x09; x0a; x0d] = None).
  { clear -HT. induction tok as [|b tok IH]; [done|]. cbn [forallb IndexAny] in *.
    apply andb_true_iff in HT as [Hb Hs].
    destruct (graphic_not_space b Hb) as (H1 & H2 & H3 & H4).
    cbn [existsb] in *. apply orb_false_iff in H1 as [-> H1].
    apply orb_false_iff in H1 as [-> _]. rewrite H2, H3. cbn. by rewrite IH. }
  rewrite (IndexAny_app_hit tok rest _ x20 Hi eq_refl). cbn.
  by rewrite take_app_length.
Qed.

(** C5. The test of [parseAuthKey] is a prefix test on the line, not a
    comparison of the leading token: a line whose token goes on behind one
    of the five identifiers (as the names of the certificate algorithms
    do) has a token that is none of the five, and [parseAuthKey] accepts
    it; [readAuthorizedKeys] returns its key as a record and no error. *)
Theorem C5_extended_token_accepted (T : string) (ext : bytes) (k : KeyT) (c : string) :
  T ∈ identifiers -> ext ≠ [] -> forallb graphic ext = true ->
  libraryKey k -> plainComment c ->
  (leadingToken ((String.list_byte_of_string T ++ ext)
                   ++ x20 :: Base64.Encode (KeyMarshal k)
                   ++ x20 :: String.list_byte_of_string c ++ [x0a])
     ∉ identifiers) /\
  parseAuthKey ((String.list_byte_of_string T ++ ext)
                  ++ x20 :: Base64.Encode (KeyMarshal k)
                  ++ x20 :: String.list_byte_of_string c ++ [x0a])
    = inl (mkAuthKey k c) /\
  readAuthorizedKeys
    (mkReader ((String.list_byte_of_string T ++ ext)
                 ++ x20 :: Base64.Encode (KeyMarshal k)
                 ++ x20 :: String.list_byte_of_string c ++ [x0a]) None)
    = ([mkAuthKey k c], None).
Proof.
  intros HT Hext Hg Hlib (Hlf & Hcr & Hc).
  destruct (identifier_facts _ HT) as (HTg & (t0 & T' & HT0 & Ht0) & Hsup).
  assert (Htok : forallb graphic (String.list_byte_of_string T ++ ext) = true)
    by (by rewrite forallb_app, HTg, Hg).
  assert (Hparse : parseAuthKey ((String.list_byte_of_string T ++ ext)
                  ++ x20 :: Base64.Encode (KeyMarshal k)
                  ++ x20 :: String.list_byte_of_string c ++ [x0a])
    = inl (mkAuthKey k c)).
  { unfold parseAuthKey. rewrite <- (app_assoc (String.list_byte_of_string T)), Hsup.
    cbn [negb]. change (ParseAuthorizedKey ?x) with (SshText.ParseAuthorizedKey x).
    rewrite app_assoc.
    replace ((String.list_byte_of_string T ++ ext)
               ++ x20 :: Base64.Encode (KeyMarshal k)
               ++ x20 :: String.list_byte_of_string c ++ [x0a])
      with (((t0 :: T' ++ ext) ++ x20 :: Base64.Encode (KeyMarshal k)
               ++ x20 :: String.list_byte_of_string c) ++ x0a :: [])
      by (rewrite HT0; cbn; rewrite <- !app_assoc; cbn; by rewrite <- !app_assoc).
    rewrite ParseAuthorizedKey_token;
      [by rewrite String.string_of_list_byte_of_string | | done..].
    by rewrite HT0 in Htok. }
  split; [|split; [done|]].
  - rewrite leadingToken_token_line by done. by apply extended_identifier.
  - unfold readAuthorizedKeys.
    pose proof (token_line_noLF _ _ _ Htok (Encode_graphic (KeyMarshal k)) Hlf) as HL.
    replace ((String.list_byte_of_string T ++ ext)
               ++ x20 :: Base64.Encode (KeyMarshal k)
               ++ x20 :: String.list_byte_of_string c ++ [x0a])
      with (((String.list_byte_of_string T ++ ext) ++ x20 :: Base64.Encode (KeyMarshal k)
               ++ x20 :: String.list_byte_of_string c) ++ x0a :: []) in *
      by (rewrite <- !app_assoc; cbn; by rewrite <- !app_assoc).
    rewrite readFrom_line by done.
    replace (x0a :: []) with [x0a] in Hparse by done. rewrite Hparse.
    by rewrite (readFrom_end [] None).
Qed.

End TextFacts.
(** ** The claims on the worked examples *)
Section Examples.
Import Demo.
#[local] Existing Instance Demo.ssh.

(** The program on the example world: a successful run, a duplicate, a
    call without container. *)
Lemma demo_success :
  fst (main env ["web1"] (world [recA; recB])) = 0 /\
  stderr (snd (main env ["web1"] (world [recA; recB]))) = "" /\
  rf_data <$> remote (snd (main env ["web1"] (world [recA; recB]))) !! remotePath
    = Some (flat_map MarshalWithComment [recA; recB; recC]) /\
  files (snd (main env ["web1"] (world [recA; recB]))) !! tmpFile = None.
Proof. repeat split; reflexivity. Qed.

Lemma demo_duplicate :
  fst (main env ["web1"] (world [recA; recC'])) = 1 /\
  stderr (snd (main env ["web1"] (world [recA; recC'])))
    = "Error: key already in authorized_keys" +:+ LF /\
  remote (snd (main env ["web1"] (world [recA; recC'])))
    = remote (world [recA; recC']).
Proof. repeat split; reflexivity. Qed.

Lemma demo_usage :
  fst (main env [] (world [])) = 1 /\
  stderr (snd (main env [] (world []))) = "usage: addkey [OPTIONS] <container>" +:+ LF.
Proof. repeat split; reflexivity. Qed.

Lemma C1_witness :
  exists w',
    realmain env "web1" "" (world [recA; recC']) = (Some DuplicateKeyError, w') /\
    remote w' = remote (world [recA; recC']) /\
    trace w' = trace (world [recA; recC'])
                 ++ [EvCreate tmpFile; EvPull remotePath tmpFile;
                     EvClose tmpFile; EvRemove tmpFile] /\
    existsb isWriteEvent [EvCreate tmpFile; EvPull remotePath tmpFile;
                          EvClose tmpFile; EvRemove tmpFile] = false.
Proof.
  apply (C1_duplicate_rejected env "web1" "" (world [recA; recC'])
           (MarshalWithComment recC) recC recC'
           (mkRemoteFile (flat_map MarshalWithComment [recA; recC']) 0 0 "600")
           [recA; recC']).
  - reflexivity.
  - reflexivity.
  - reflexivity.
  - reflexivity.
  - reflexivity.
  - reflexivity.
  - reflexivity.
  - reflexivity.
  - right. left.
  - reflexivity.
Defined.

(** The failing input of C2: Alice's line, then Bob's without its line
    feed. Bob's key is not in the result and no error is reported. *)
Lemma C2_witness :
  readAuthorizedKeys (mkReader (joinLines [lineOf recA] ++ lineOf recB) None)
    = ([recA], None).
Proof.
  rewrite (C2_unterminated_line_dropped [lineOf recA] (lineOf recB)).
  - reflexivity.
  - repeat constructor.
  - reflexivity.
Defined.

Lemma C3_witness :
  Forall wellFormed [recA; recB; recC] /\
  readAuthorizedKeys (mkReader (flat_map MarshalWithComment [recA; recB; recC]) None)
    = ([recA; recB; recC], None).
Proof.
  assert (H : Forall (wellFormed (keys := keys)) [recA; recB; recC]).
  { repeat constructor; try reflexivity;
      try (apply (bool_decide_unpack _); reflexivity); done. }
  split; [exact H | exact (C3_round_trip [recA; recB; recC] H)].
Defined.

(** C3 as stated fails on a comment that starts with a space: the record
    is of a supported algorithm and its comment has no newline, and what
    comes back has the comment without the space. *)
Lemma C3_counterexample :
  wellFormedAsClaimed recSpaced /\
  readAuthorizedKeys (mkReader (flat_map MarshalWithComment [recSpaced]) None)
    = ([recTrimmed], None) /\
  [recTrimmed] ≠ [recSpaced].
Proof.
  split; [|split].
  - split; [|split; [split|]].
    + unfold supportedKey. apply (bool_decide_unpack _). reflexivity.
    + done.
    + reflexivity.
    + reflexivity.
  - reflexivity.
  - intros [=].
Qed.

Lemma C4_witness :
  exists keybuf key old keys,
    files (world [recA; recB]) !! keyPath env "" = Some keybuf /\
    parseAuthKey keybuf = inl key /\
    remote (world [recA; recB]) !! authKeysPath "web1" = Some old /\
    readAuthorizedKeys (mkReader (rf_data old) None) = (keys, None) /\
    alreadyPresent (Marshal (Key key)) keys = false /\
    rf_data <$> remote (snd (realmain env "web1" "" (world [recA; recB])))
                  !! authKeysPath "web1" =
      Some (flat_map MarshalWithComment keys ++ MarshalWithComment key) /\
    (forall A B : authKey, keys = [A; B] ->
       rf_data <$> remote (snd (realmain env "web1" "" (world [recA; recB])))
                     !! authKeysPath "web1" =
         Some (MarshalWithComment A ++ MarshalWithComment B
                 ++ MarshalWithComment key)).
Proof.
  apply (C4_order_preserved env "web1" "" (world [recA; recB])).
  etrans; [apply surjective_pairing|]. f_equal.
Defined.

(** The failing input of C5: a line under the name of a certificate
    algorithm. Its leading token is none of the five identifiers, and the
    line is accepted and decoded. *)
Lemma C5_witness :
  (leadingToken certLine ∉ identifiers) /\
  parseAuthKey certLine = inl recA /\
  readAuthorizedKeys (mkReader certLine None) = ([recA], None).
Proof.
  apply (C5_extended_token_accepted (keys := keys) KeyAlgoRSA
           (String.list_byte_of_string "-cert-v01@openssh.com") keyA "alice@host").
  - left.
  - done.
  - reflexivity.
  - split; [done | reflexivity].
  - repeat split; reflexivity.
Defined.
(** C8 as stated fails on a command line with an undefined flag and on
    [-h]: neither names a container, and the process exits with code 2,
    or with code 0 after printing, and what it prints is the message of
    package [flag], not the usage text of the program. *)
Lemma C8_counterexample :
  fst (main env ["-x"] (world [])) = 2 /\
  fst (main env ["-x"] (world [])) ≠ 1 /\
  stderr (snd (main env ["-x"] (world []))) =
    "flag provided but not defined: -x" +:+ LF +:+ "Usage of addkey:" +:+ LF /\
  stderr (snd (main env ["-x"] (world []))) ≠ stderr (world []) +:+ usage env /\
  fst (main env ["-h"] (world [])) = 0 /\
  stderr (snd (main env ["-h"] (world []))) = "Usage of addkey:" +:+ LF.
Proof. repeat split; try reflexivity; intros [=]. Qed.

Lemma C10_witness :
  readAuthorizedKeys (mkReader [] None) = ([], None) /\
  exists w',
    realmain env "web1" "" (world []) = (None, w') /\
    remote w' =
      <[authKeysPath "web1" := mkRemoteFile (MarshalWithComment recC) 0 0 "640"]>
        (remote (world [])).
Proof.
  apply (C10_empty_remote_file env "web1" "" (world []) (MarshalWithComment recC)
           recC (mkRemoteFile [] 0 0 "600")).
  - repeat split.
  - reflexivity.
  - reflexivity.
  - reflexivity.
  - reflexivity.
  - reflexivity.
Defined.

End Examples.

(** * Further properties *)

(** ** The decoder, line by line *)
Section DecoderMore.
Context `{ssh : SshAPI}.

(** Complete lines that parse are taken in, in their order, and the loop
    goes on behind them. *)
Lemma readFrom_parsed (ls : list bytes) (rs : list authKey) (rest : bytes)
    (fail : option string) (keys0 : list authKey) :
  Forall noLF ls ->
  Forall2 (fun l r => parseAuthKey (l ++ [x0a]) = inl r) ls rs ->
  readFrom (mkReader (joinLines ls ++ rest) fail) keys0 =
  readFrom (mkReader rest fail) (keys0 ++ rs).
Proof.
  intros Hls Hp. revert keys0.
  induction Hp as [|l r ls rs Hl Hp IH]; intros keys0.
  - change (joinLines []) with (@nil byte). by rewrite app_nil_l, app_nil_r.
  - apply Forall_cons in Hls as [Hnl Hls].
    change (joinLines (l :: ls)) with ((l ++ [x0a]) ++ joinLines ls).
    rewrite <- !app_assoc. cbn [app].
    rewrite readFrom_line by done. rewrite Hl, IH by done.
    by rewrite <- app_assoc.
Qed.

(** X1. Decoding a stream of complete lines, each of which [parseAuthKey]
    accepts, returns the records of the lines, one per line and in the
    order of the lines, and no error. *)
Theorem X1_decode_line_by_line (ls : list bytes) (rs : list authKey) :
  Forall noLF ls ->
  Forall2 (fun l r => parseAuthKey (l ++ [x0a]) = inl r) ls rs ->
  readAuthorizedKeys (mkReader (joinLines ls) None) = (rs, None).
Proof.
  intros Hls Hp. unfold readAuthorizedKeys.
  rewrite <- (app_nil_r (joinLines ls)).
  rewrite (readFrom_parsed ls rs) by done.
  by rewrite (readFrom_end [] None).
Qed.

(** X2. The first line that [parseAuthKey] rejects decides the result:
    its error is returned, the records of the lines before it are thrown
    away, and what follows it in the stream is not looked at. *)
Theorem X2_first_bad_line_decides
    (ls : list bytes) (rs : list authKey) (line rest : bytes) (e : error)
    (fail : option string) :
  Forall noLF ls -> noLF line ->
  Forall2 (fun l r => parseAuthKey (l ++ [x0a]) = inl r) ls rs ->
  parseAuthKey (line ++ [x0a]) = inr e ->
  readAuthorizedKeys (mkReader (joinLines ls ++ line ++ x0a :: rest) fail)
    = ([], Some e).
Proof.
  intros Hls Hline Hp He. unfold readAuthorizedKeys.
  rewrite (readFrom_parsed ls rs) by done.
  rewrite readFrom_line by done. by rewrite He.
Qed.

(** X3. A read error of the source other than io.EOF is returned as it
    is, and the records decoded before it are thrown away, also when every
    line read so far was accepted. *)
Theorem X3_read_error_discards
    (ls : list bytes) (rs : list authKey) (tail : bytes) (msg : string) :
  Forall noLF ls -> noLF tail ->
  Forall2 (fun l r => parseAuthKey (l ++ [x0a]) = inl r) ls rs ->
  readAuthorizedKeys (mkReader (joinLines ls ++ tail) (Some msg))
    = ([], Some (ext_error msg)).
Proof.
  intros Hls Ht Hp. unfold readAuthorizedKeys.
  rewrite (readFrom_parsed ls rs) by done.
  by rewrite (readFrom_end tail (Some msg)).
Qed.

(** A line that is empty or starts with a byte other than [s] and [e]
    does not pass the prefix test. *)
Lemma supported_first_byte (line : bytes) :
  head line ≠ Some x73 -> head line ≠ Some x65 -> supported line = false.
Proof.
  intros Hs He. destruct line as [|b line]; [reflexivity|].
  assert (Byte.eqb b x73 = false) as Hbs.
  { destruct (Byte.eqb b x73) eqn:E; [|done].
    apply Byte.byte_dec_bl in E. by subst. }
  assert (Byte.eqb b x65 = false) as Hbe.
  { destruct (Byte.eqb b x65) eqn:E; [|done].
    apply Byte.byte_dec_bl in E. by subst. }
  unfold supported. cbn. by rewrite Hbs, Hbe.
Qed.

(** X4. Blank lines, [#] comment lines and entries that start with
    options: a line that is empty or begins with a byte other than [s] and
    [e] is rejected, with its line feed, with the unsupported-algorithm
    error. A stream in which such a line stands, terminated by a line
    feed, behind any number of complete lines decodes to an error and no
    keys, whatever follows; the error is the unsupported-algorithm error
    when the lines before it are all accepted. *)
Theorem X4_blank_and_comment_lines_rejected
    (ls : list bytes) (line rest : bytes) (fail : option string) :
  Forall noLF ls -> noLF line ->
  head line ≠ Some x73 -> head line ≠ Some x65 ->
  parseAuthKey (line ++ [x0a]) = inr errUnsupportedKeyAlgo /\
  (exists e,
     readAuthorizedKeys (mkReader (joinLines ls ++ line ++ x0a :: rest) fail)
       = ([], Some e)) /\
  (forall rs : list authKey,
     Forall2 (fun l r => parseAuthKey (l ++ [x0a]) = inl r) ls rs ->
     readAuthorizedKeys (mkReader (joinLines ls ++ line ++ x0a :: rest) fail)
       = ([], Some errUnsupportedKeyAlgo)).
Proof.
  intros Hls Hline Hs He.
  assert (Hbad : parseAuthKey (line ++ [x0a]) = inr errUnsupportedKeyAlgo).
  { apply parseAuthKey_unsupported. rewrite supported_app_LF.
    by apply supported_first_byte. }
  split; [done|]. split.
  - unfold readAuthorizedKeys. rewrite readFrom_joinLines by done.
    destruct (readFrom (mkReader (joinLines ls) None) []) as [ks [e|]].
    + by exists e.
    + exists errUnsupportedKeyAlgo. rewrite readFrom_line by done. by rewrite Hbad.
  - intros rs Hp. unfold readAuthorizedKeys.
    rewrite (readFrom_parsed ls rs) by done.
    rewrite readFrom_line by done. by rewrite Hbad.
Qed.

(** X5. The duplicate check of [realmain] finds the new key exactly when
    its binary encoding is among the binary encodings of the old keys:
    comments, order and repetitions of the old records play no part. *)
Theorem X5_duplicate_check_is_membership (keymarshal : bytes) (keys : list authKey) :
  alreadyPresent keymarshal keys = true <->
  keymarshal ∈ (fun k => Marshal (Key k)) <$> keys.
Proof.
  rewrite list_elem_of_fmap. induction keys as [|k keys IH]; cbn [alreadyPresent].
  - split; [done|]. intros (k & _ & Hk). by apply elem_of_nil in Hk.
  - unfold GoBytes.Equal. case_bool_decide as Heq.
    + split; [|done]. intros _. exists k. split; [done | left].
    + rewrite IH. split.
      * intros (k' & Hm & Hk'). exists k'. split; [done | by right].
      * intros (k' & Hm & Hk'). apply elem_of_cons in Hk' as [->|Hk']; [done|].
        by exists k'.
Qed.

End DecoderMore.

(** ** [rmFile] and [writeAuthorizedKeys] on their own *)
Section FileStepsMore.
Context `{ssh : SshAPI} (env : Env).
Ltac io := unfold mbind, IO_bind, mret, IO_ret in *.

(** X6. [rmFile] can be called in any state: afterwards the handle is
    closed and the file is gone, the container, standard output and all
    other files and handles are as before, and standard error has one
    report for each of the two steps that found nothing to do: the close of
    a handle that was not open, the removal of a file that was not there. *)
Theorem X6_rmFile_any_state (f : File) (w : World) :
  files (snd (rmFile f w)) !! Name f = None /\
  handles (snd (rmFile f w)) !! Name f = None /\
  remote (snd (rmFile f w)) = remote w /\
  stdout (snd (rmFile f w)) = stdout w /\
  onlyTouches f w (snd (rmFile f w)) /\
  stderr (snd (rmFile f w)) =
    match handles w !! Name f, files w !! Name f with
    | Some _, Some _ => stderr w
    | None, Some _ => stderr w +:+ perrText (closeError f)
    | Some _, None => stderr w +:+ perrText (removeError f)
    | None, None =>
        (stderr w +:+ perrText (closeError f)) +:+ perrText (removeError f)
    end.
Proof.
  unfold rmFile, File_Close, os_Remove, perr, onlyTouches. io.
  destruct (handles w !! Name f) as [off|] eqn:Hh;
    cbn; destruct (files w !! Name f) as [c|] eqn:Hf; cbn;
    rewrite ?lookup_delete_eq, ?Hh, ?Hf;
    (repeat split; try done; try (by rewrite ?lookup_delete_ne)).
Qed.

(** [writeAuthorizedKeys] on a file that is there and open: which error
    comes back, and what a success leaves. *)
Lemma writeAuthorizedKeys_table (f : File) (keys : list authKey) (dst : string)
    (w : World) :
  live f w -> keys ≠ [] ->
  fst (writeAuthorizedKeys env f keys dst w) =
    ext_error <$> firstWriteFailure env (length keys) /\
  (fst (writeAuthorizedKeys env f keys dst w) = None ->
   files (snd (writeAuthorizedKeys env f keys dst w)) !! Name f
     = Some (flat_map MarshalWithComment keys) /\
   handles (snd (writeAuthorizedKeys env f keys dst w)) !! Name f
     = Some (length (flat_map MarshalWithComment keys)) /\
   remote (snd (writeAuthorizedKeys env f keys dst w)) !! dst
     = Some (mkRemoteFile (flat_map MarshalWithComment keys) 0 0 "640")).
Proof.
  intros Hlive Hne.
  destruct (writeAuthorizedKeys_run env f keys dst w Hlive Hne) as (chunks & -> & Hcat).
  destruct (firstWriteFailure env (length keys)) as [msg|]; [by split|].
  specialize (Hcat eq_refl). split; [done|]. intros _.
  cbn. rewrite !lookup_insert_eq, Hcat. done.
Qed.

(** X7. When [writeAuthorizedKeys] succeeds on an open file, the file
    holds the encoding of the keys and nothing else, whatever it held
    before and wherever the handle stood (that is what [Truncate(0)] and
    [Seek(0, 0)] are for), the handle stands at its end, and the file in
    the container is that content with owner 0, group 0 and mode 640. *)
Theorem X7_write_replaces_content (f : File) (keys : list authKey) (dst : string)
    (w : World) :
  live f w -> fst (writeAuthorizedKeys env f keys dst w) = None ->
  files (snd (writeAuthorizedKeys env f keys dst w)) !! Name f
    = Some (flat_map MarshalWithComment keys) /\
  handles (snd (writeAuthorizedKeys env f keys dst w)) !! Name f
    = Some (length (flat_map MarshalWithComment keys)) /\
  remote (snd (writeAuthorizedKeys env f keys dst w)) !! dst
    = Some (mkRemoteFile (flat_map MarshalWithComment keys) 0 0 "640").
Proof.
  intros Hlive Hok. destruct keys as [|k keys]; [done|].
  by apply (writeAuthorizedKeys_table f (k :: keys) dst w Hlive).
Qed.

(** X8. On an open file the result of [writeAuthorizedKeys] is decided by
    the first failing step in the order truncate, the [Write] calls (one
    per key), flush, push: its error is returned as it is; a [Write]
    failure set for a call beyond the number of keys never happens; with
    no keys the result is the no-keys error before any step is tried. *)
Theorem X8_write_first_failure (f : File) (keys : list authKey) (dst : string)
    (w : World) :
  live f w ->
  fst (writeAuthorizedKeys env f keys dst w) =
    match keys with
    | [] => Some NoKeysError
    | _ :: _ => ext_error <$> firstWriteFailure env (length keys)
    end /\
  (keys = [] -> snd (writeAuthorizedKeys env f keys dst w) = w).
Proof.
  intros Hlive. destruct keys as [|k keys]; [done|]. split; [|done].
  by apply (writeAuthorizedKeys_table f (k :: keys) dst w Hlive).
Qed.

End FileStepsMore.

(** ** [realmain] and [main] as a whole *)
Section PipelineMore.
Context `{ssh : SshAPI} (env : Env).
Ltac io := unfold mbind, IO_bind, mret, IO_ret in *.
#[local] Arguments readAuthorizedKeys : simpl never.
#[local] Arguments writeAuthorizedKeys : simpl never.
#[local] Arguments alreadyPresent : simpl never.
#[local] Arguments realmain_rest : simpl never.
#[local] Arguments rmFile : simpl never.
#[local] Arguments firstWriteFailure : simpl never.

(** The result of the statements after [defer], on a fresh temporary
    file. *)
Lemma realmain_rest_table (container : string) (key : authKey) (tmp : File) (w : World) :
  handles w !! Name tmp = Some 0 -> is_Some (files w !! Name tmp) ->
  fst (realmain_rest env container key tmp w) =
    match env_pullErr env, remote w !! authKeysPath container with
    | Some msg, _ => Some (ext_error msg)
    | None, None => Some (ext_error "exit status 1")
    | None, Some old =>
        match decodeRemote env old with
        | (_, Some e) => Some e
        | (keys, None) =>
            if alreadyPresent (Marshal (Key key)) keys
            then Some DuplicateKeyError
            else
              match firstWriteFailure env (S (length keys)) with
              | Some msg =>
                  Some (fmt_Errorf "error pushing new authorized_keys: "
                          (ext_error msg) "")
              | None => None
              end
        end
    end.
Proof.
  intros Hh [c Hf]. unfold realmain_rest, lxcPull, lxc_file_pull, authKeysPath. io.
  destruct (env_pullErr env); [done|].
  destruct (remote w !! _) as [old|] eqn:Hold; [|done].
  unfold File_Reader, decodeRemote. cbn. rewrite Hh, lookup_insert_eq. cbn.
  rewrite drop_0.
  destruct (readAuthorizedKeys _) as [keys [e|]] eqn:Hrd; [done|].
  destruct (alreadyPresent _ keys) eqn:Hdup; [done|].
  set (w2 := set_handles _ _).
  assert (Hlive : live tmp w2).
  { subst w2. split; cbn; rewrite lookup_insert_eq; eauto. }
  assert (Hne : keys ++ [key] ≠ []) by (by destruct keys).
  destruct (writeAuthorizedKeys_table env tmp (keys ++ [key])
              (container +:+ "/root/.ssh/authorized_keys") w2 Hlive Hne) as [Hres _].
  destruct (writeAuthorizedKeys _ _ _ _ _) as [r w']. cbn in Hres. subst r.
  rewrite length_app, Nat.add_1_r.
  by destruct (firstWriteFailure env (S (length keys))).
Qed.

Lemma realmain_outcome (container keyFlag : string) (w : World) :
  fst (realmain env container keyFlag w) = outcome env container keyFlag w.
Proof.
  unfold realmain, outcome, ioutil_ReadFile, ioutil_TempFile.
  fold (keyPath env keyFlag). io.
  destruct (files w !! keyPath env keyFlag) as [keybuf|]; [|done].
  destruct (parseAuthKey keybuf) as [key|e]; [|done].
  destruct (env_tempFileErr env); [done|].
  destruct (files w !! env_tempName env) eqn:Hfree; [done|].
  unfold defer. io.
  set (w1 := log _ _).
  pose proof (realmain_rest_table container key (mkFile (env_tempName env)) w1) as Ht.
  destruct (realmain_rest _ _ _ _ _) as [r w2].
  destruct (rmFile _ w2) as [[] w3]. cbn in *. rewrite Ht.
  - done.
  - by rewrite lookup_insert_eq.
  - rewrite lookup_insert_eq. eauto.
Qed.

Lemma realmain_files (container keyFlag : string) (w : World) :
  files (snd (realmain env container keyFlag w)) = files w.
Proof.
  pose proof (realmain_spec env container keyFlag w) as Hs. cbv zeta in Hs.
  destruct (realmain env container keyFlag w) as [r w'].
  destruct Hs as [_ [[-> _]|Hs]]; [done|].
  destruct Hs as (keybuf & key & mid & _ & _ & _ & Hfree & _ & Hf & _ & Hot & _).
  cbn. apply map_eq. intros q.
  destruct (decide (q = env_tempName env)) as [->|Hq]; [by rewrite Hf, Hfree|].
  by destruct (Hot q Hq).
Qed.

(** X9. The error [realmain] returns is decided by the first step that
    fails, in the order of the source: reading the key file (wrapped as
    "error reading key"), parsing it, making the temporary file, the pull
    (a file missing in the container is the error of [lxc]), decoding, the
    duplicate check, then writing and pushing (wrapped as "error pushing
    new authorized_keys"); all other errors come back as they are. Once
    the temporary file exists no step fails for a closed handle or a
    missing file. *)
Theorem X9_first_failure_decides (container keyFlag : string) (w : World) :
  fst (realmain env container keyFlag w) = outcome env container keyFlag w.
Proof. apply realmain_outcome. Qed.

(** X10. Whatever happens, [realmain] leaves the local file system as it
    found it: the key file and every other file have their contents, and
    no temporary file stays behind. *)
Theorem X10_local_files_unchanged (container keyFlag : string) (w : World) :
  files (snd (realmain env container keyFlag w)) = files w.
Proof. apply realmain_files. Qed.

(** The events of [writeAuthorizedKeys] on an open file are an initial
    part of truncate, the writes to the file, push; what is pushed is what
    the writes put into the file. *)
Lemma writeAuthorizedKeys_trace (f : File) (keys : list authKey) (dst : string)
    (w : World) :
  live f w ->
  exists evs chunks,
    trace (snd (writeAuthorizedKeys env f keys dst w)) = trace w ++ evs /\
    evs `prefix_of` EvTruncate (Name f) 0 :: (EvWrite (Name f) <$> chunks)
                      ++ [EvPush (Name f) dst] /\
    (fst (writeAuthorizedKeys env f keys dst w) = None <-> existsb isPush evs = true) /\
    (fst (writeAuthorizedKeys env f keys dst w) = None ->
     rf_data <$> remote (snd (writeAuthorizedKeys env f keys dst w)) !! dst
       = Some (concat chunks)).
Proof.
  intros Hlive. destruct keys as [|k keys].
  { exists [], []. unfold writeAuthorizedKeys. rewrite decide_True by done. cbn.
    rewrite app_nil_r. repeat split; [by eexists|done|done|done]. }
  destruct (writeAuthorizedKeys_run env f (k :: keys) dst w Hlive) as (chunks & -> & Hcat);
    [done|].
  destruct (firstWriteFailure env _) as [msg|].
  - destruct (env_truncateErr env).
    + exists [], chunks. cbn. rewrite app_nil_r.
      repeat split; [by eexists|done|done|done].
    + exists (EvTruncate (Name f) 0 :: (EvWrite (Name f) <$> chunks)), chunks.
      cbn. rewrite <- app_assoc, existsb_isPush_writes.
      repeat split; [by eexists|done|done|done].
  - exists (EvTruncate (Name f) 0 :: (EvWrite (Name f) <$> chunks)
              ++ [EvPush (Name f) dst]), chunks.
    cbn. rewrite <- !app_assoc, existsb_app, existsb_isPush_writes.
    repeat split; try done. intros _. rewrite lookup_insert_eq. cbn.
    by rewrite Hcat.
Qed.

Lemma realmain_rest_trace (container : string) (key : authKey) (tmp : File) (w : World) :
  handles w !! Name tmp = Some 0 -> is_Some (files w !! Name tmp) ->
  live tmp (snd (realmain_rest env container key tmp w)) /\
  exists mid chunks,
    trace (snd (realmain_rest env container key tmp w)) = trace w ++ mid /\
    mid `prefix_of` EvPull (authKeysPath container) (Name tmp)
                      :: EvTruncate (Name tmp) 0
                      :: (EvWrite (Name tmp) <$> chunks)
                      ++ [EvPush (Name tmp) (authKeysPath container)] /\
    (fst (realmain_rest env container key tmp w) = None <-> existsb isPush mid = true) /\
    (fst (realmain_rest env container key tmp w) = None ->
     rf_data <$> remote (snd (realmain_rest env container key tmp w))
                   !! authKeysPath container = Some (concat chunks)).
Proof.
  intros Hh [c Hf].
  pose proof (realmain_rest_spec env container key tmp w Hh (ex_intro _ c Hf)) as Hspec.
  cbv zeta in Hspec.
  assert (Hl : live tmp (snd (realmain_rest env container key tmp w))).
  { by destruct (realmain_rest env container key tmp w) as [r w'], Hspec as (_ & ? & _). }
  split; [done|]. clear Hspec Hl.
  unfold realmain_rest, lxcPull, lxc_file_pull, authKeysPath. io.
  destruct (env_pullErr env).
  { exists [], []. cbn. rewrite app_nil_r. repeat split; [by eexists|done|done|done]. }
  destruct (remote w !! _) as [old|] eqn:Hold.
  2:{ exists [], []. cbn. rewrite app_nil_r. repeat split; [by eexists|done|done|done]. }
  unfold File_Reader. cbn. rewrite Hh, lookup_insert_eq. cbn.
  destruct (readAuthorizedKeys _) as [keys [e|]] eqn:Hrd.
  { eexists [_], []. cbn. repeat split; [by eexists|done|done|done]. }
  destruct (alreadyPresent _ keys) eqn:Hdup.
  { eexists [_], []. cbn. repeat split; [by eexists|done|done|done]. }
  set (w2 := set_handles _ _).
  assert (Hlive : live tmp w2).
  { subst w2. split; cbn; rewrite lookup_insert_eq; eauto. }
  destruct (writeAuthorizedKeys_trace tmp (keys ++ [key])
              (container +:+ "/root/.ssh/authorized_keys") w2 Hlive)
    as (evs & chunks & Htr & Hpre & Hok & Hrem).
  destruct (writeAuthorizedKeys _ _ _ _ _) as [r w']. cbn in Htr, Hok, Hrem.
  exists (EvPull (container +:+ "/root/.ssh/authorized_keys") (Name tmp) :: evs), chunks.
  split; [|split; [|split]].
  - destruct r; cbn; rewrite Htr; subst w2; cbn; by rewrite <- app_assoc.
  - by apply prefix_cons.
  - cbn [existsb isPush orb]. destruct r as [e|]; cbn.
    + split; [done|]. intros Hex. by apply Hok in Hex.
    + split; [|done]. intros _. by apply Hok.
  - destruct r as [e|]; cbn; [done|]. intros _. by apply Hrem.
Qed.

(** X11. The steps of a run come in one fixed order: either nothing is
    done to files or container, or the temporary file is created, then an
    initial part of pull, truncate, the writes of the buffered writer to
    the file, push takes effect, then the file is closed and removed. The
    run succeeds exactly when the push took effect, and what it pushed is
    what the writes, one after the other, put into the file. *)
Theorem X11_steps_in_fixed_order (container keyFlag : string) (w : World) :
  exists mid chunks,
    mid `prefix_of` EvPull (authKeysPath container) (env_tempName env)
                      :: EvTruncate (env_tempName env) 0
                      :: (EvWrite (env_tempName env) <$> chunks)
                      ++ [EvPush (env_tempName env) (authKeysPath container)] /\
    (fst (realmain env container keyFlag w) = None <-> existsb isPush mid = true) /\
    (fst (realmain env container keyFlag w) = None ->
     rf_data <$> remote (snd (realmain env container keyFlag w))
                   !! authKeysPath container = Some (concat chunks)) /\
    (trace (snd (realmain env container keyFlag w)) = trace w \/
     trace (snd (realmain env container keyFlag w)) =
       trace w ++ EvCreate (env_tempName env) :: mid
         ++ [EvClose (env_tempName env); EvRemove (env_tempName env)]).
Proof.
  unfold realmain, ioutil_ReadFile, ioutil_TempFile. io.
  destruct (files w !! _) as [keybuf|];
    [|exists [], []; repeat split; [by eexists|done|done|done|by left]].
  destruct (parseAuthKey keybuf) as [key|e];
    [|exists [], []; repeat split; [by eexists|done|done|done|by left]].
  destruct (env_tempFileErr env);
    [exists [], []; repeat split; [by eexists|done|done|done|by left]|].
  destruct (files w !! env_tempName env) eqn:Hfree;
    [exists [], []; repeat split; [by eexists|done|done|done|by left]|].
  unfold defer. io.
  set (w1 := log _ _).
  destruct (realmain_rest_trace container key (mkFile (env_tempName env)) w1)
    as (Hlive & mid & chunks & Htr & Hpre & Hok & Hrem).
  { subst w1. cbn. by rewrite lookup_insert_eq. }
  { subst w1. cbn. rewrite lookup_insert_eq. eauto. }
  destruct (realmain_rest _ _ _ _ _) as [r w2]. cbn in Hlive, Htr, Hok, Hrem.
  rewrite (rmFile_live _ w2) by apply Hlive.
  exists mid, chunks. split; [done|]. split; [done|]. split; [done|]. right.
  cbn. rewrite Htr. subst w1. cbn. by rewrite <- !app_assoc.
Qed.


(** X13. The exit code of [main] tells whether the container was changed:
    it is 0, 1 or 2; with 1 or 2 the files in the containers are as they
    were; with 0 either the help of the flags was asked for, and the
    containers are as they were, or a container was named and [realmain]
    was run on it and returned no error. *)
Theorem X13_exit_code_and_container (osArgs : list string) (w : World) :
  (fst (main env osArgs w) = 0 /\
   ((GoFlag.Parse osArgs = GoFlag.ParseHelp /\
     remote (snd (main env osArgs w)) = remote w) \/
    exists keyFlag args,
      GoFlag.Parse osArgs = GoFlag.Parsed keyFlag args /\
      flag_Arg args 0 ≠ "" /\
      fst (realmain env (flag_Arg args 0) keyFlag w) = None)) \/
  ((fst (main env osArgs w) = 1 \/ fst (main env osArgs w) = 2) /\
   remote (snd (main env osArgs w)) = remote w).
Proof.
  unfold main.
  destruct (GoFlag.Parse osArgs) as [keyFlag args|msg|];
    [|right; split; [by right | done] | left; split; [done|]; by left].
  pose proof (realmain_spec env (flag_Arg args 0) keyFlag w) as Hs. cbv zeta in Hs.
  unfold main_body, printUsage, perr. io.
  destruct (decide (String.length (flag_Arg args 0) = 0)) as [Hl|Hl];
    [right; split; [by left | done]|].
  destruct (realmain env _ keyFlag w) as [[e|] w'] eqn:Hrun; cbn.
  - right. split; [by left|].
    destruct Hs as [_ [[-> _]|Hs]]; [done|].
    by destruct Hs as (? & ? & ? & _ & _ & _ & _ & _ & _ & _ & _ & Hrem & _).
  - left. split; [done|]. right. exists keyFlag, args.
    split; [done|]. split; [|by rewrite Hrun]. intros E. rewrite E in Hl. done.
Qed.

End PipelineMore.

(** ** The textual layer: lines, key files, running twice *)
Section TextMore.
Context `{keys : SshKeys}.
Import GoBytes.
#[local] Existing Instance SshText.api.

(** X15. The line of a record with a key of a supported algorithm and a
    comment without line feed: the algorithm name, a space, the base64 of
    the key's wire form, a space, the comment, a line feed, and no line
    feed before the last byte. *)
Theorem X15_line_format (r : authKey) :
  supportedKey (Key r) -> KeyMarshal (Key r) ≠ [] ->
  noLF (String.list_byte_of_string (Comment r)) ->
  MarshalWithComment r =
    (String.list_byte_of_string (KeyType (Key r)) ++ [x20]
       ++ Base64.Encode (KeyMarshal (Key r)) ++ [x20]
       ++ String.list_byte_of_string (Comment r)) ++ [x0a] /\
  noLF (String.list_byte_of_string (KeyType (Key r)) ++ [x20]
          ++ Base64.Encode (KeyMarshal (Key r)) ++ [x20]
          ++ String.list_byte_of_string (Comment r)).
Proof.
  intros Hs Hne Hlf. split.
  - unfold MarshalWithComment.
    change (MarshalAuthorizedKey (Key r)) with (SshText.MarshalAuthorizedKey (Key r)).
    rewrite TrimSpace_MarshalAuthorizedKey by done.
    rewrite <- ?app_assoc. cbn [app]. by rewrite <- ?app_assoc.
  - pose proof (Encode_graphic (KeyMarshal (Key r))) as HE.
    destruct (identifier_facts _ Hs) as (HT & _ & _).
    unfold noLF. apply IndexByte_None_app; [by apply IndexByte_graphic|].
    cbn [app]. rewrite IndexByte_space by done.
    rewrite IndexByte_None_app; [done | by apply IndexByte_graphic |].
    rewrite IndexByte_space by done. by rewrite Hlf.
Qed.

(** The first line of the input decides [ParseAuthorizedKey] when it is
    an encoded record, with or without a line feed behind it. *)
Lemma ParseAuthorizedKey_first_line (k : KeyT) (c rest : bytes) :
  supportedKey k -> libraryKey k ->
  noLF c -> IndexByte c x0d = None -> TrimSpace c = c ->
  SshText.ParseAuthorizedKey
    (String.list_byte_of_string (KeyType k) ++ x20 :: Base64.Encode (KeyMarshal k)
       ++ x20 :: c)
  = inl (k, String.string_of_list_byte c) /\
  SshText.ParseAuthorizedKey
    ((String.list_byte_of_string (KeyType k) ++ x20 :: Base64.Encode (KeyMarshal k)
       ++ x20 :: c) ++ x0a :: rest)
  = inl (k, String.string_of_list_byte c).
Proof.
  intros Hs Hlib Hlf Hcr Hc. unfold SshText.ParseAuthorizedKey.
  pose proof (parseLine_encoded k c Hs Hlib Hcr Hc) as Hline.
  destruct (identifier_facts _ Hs) as (HT & (t0 & T' & HT0 & Ht0) & _).
  pose proof (Encode_graphic (KeyMarshal k)) as HE.
  set (L := _ ++ x20 :: _ ++ x20 :: c) in *.
  assert (HL : noLF L).
  { subst L. unfold noLF. apply IndexByte_None_app; [by apply IndexByte_graphic|].
    rewrite IndexByte_space by done.
    rewrite IndexByte_None_app; [done | by apply IndexByte_graphic |].
    rewrite IndexByte_space by done. by rewrite Hlf. }
  assert (HLne : L ≠ []) by (subst L; rewrite HT0; done).
  split; cbn [SshText.parseLines].
  - destruct L as [|l0 L'] eqn:EL; [done|]. rewrite <- EL in *.
    rewrite HL. by rewrite Hline.
  - destruct (L ++ x0a :: rest) as [|l0 L'] eqn:EL; [by destruct L|]. rewrite <- EL.
    rewrite (IndexByte_app_hit L rest x0a HL).
    rewrite take_app_length. by rewrite Hline.
Qed.

(** X16. [parseAuthKey] on a key file, as [realmain] uses it on the local
    key: the file needs no line feed at its end, and of a file with
    several lines the first key is taken and the rest is not looked at. *)
Theorem X16_key_file_first_line (r : authKey) (line rest : bytes) :
  wellFormed r -> MarshalWithComment r = line ++ [x0a] ->
  parseAuthKey line = inl r /\
  parseAuthKey (MarshalWithComment r ++ rest) = inl r.
Proof.
  intros (Hs & Hlib & Hlf & Hcr & Hc) Henc.
  rewrite (MarshalWithComment_encoded r Hs Hlib) in Henc |- *.
  apply app_inj_tail in Henc as [<- _].
  destruct (identifier_facts _ Hs) as (_ & _ & Hsup).
  destruct (ParseAuthorizedKey_first_line (Key r)
              (String.list_byte_of_string (Comment r)) rest Hs Hlib Hlf Hcr Hc)
    as [H1 H2].
  unfold parseAuthKey. split.
  - rewrite Hsup. cbn [negb].
    change (ParseAuthorizedKey ?x) with (SshText.ParseAuthorizedKey x).
    rewrite H1, String.string_of_list_byte_of_string. by destruct r.
  - rewrite <- !(app_assoc (String.list_byte_of_string _)), Hsup. cbn [negb].
    rewrite !app_assoc. rewrite <- (app_assoc _ [x0a] rest). cbn [app].
    change (ParseAuthorizedKey ?x) with (SshText.ParseAuthorizedKey x).
    rewrite <- !(app_assoc (String.list_byte_of_string _)) in H2 |- *.
    cbn [app] in H2 |- *. rewrite <- !app_assoc in H2 |- *. cbn [app] in H2 |- *.
    rewrite H2, String.string_of_list_byte_of_string. by destruct r.
Qed.

(** X17. The encoding determines the records: two sequences of
    well-formed records with the same bytes are the same sequence. *)
Theorem X17_encoding_injective (rs1 rs2 : list authKey) :
  Forall wellFormed rs1 -> Forall wellFormed rs2 ->
  flat_map MarshalWithComment rs1 = flat_map MarshalWithComment rs2 ->
  rs1 = rs2.
Proof.
  intros H1 H2 Heq.
  pose proof (readFrom_encoded rs1 [] H1) as E1.
  pose proof (readFrom_encoded rs2 [] H2) as E2.
  rewrite Heq in E1. rewrite E1 in E2. by injection E2.
Qed.

End TextMore.

(** ** Running twice *)
Section TwiceMore.
Context `{keys : SshKeys} (env : Env).
#[local] Existing Instance SshText.api.
#[local] Arguments readAuthorizedKeys : simpl never.
#[local] Arguments alreadyPresent : simpl never.
#[local] Arguments firstWriteFailure : simpl never.

(** X18. Running the program a second time after a run that succeeded, on
    well-formed keys: the second run stops with [DuplicateKeyError] and
    leaves the container's file as the first run made it. *)
Theorem X18_second_run_is_duplicate
    (container keyFlag : string) (w : World)
    (keybuf : bytes) (key : authKey) (old : RemoteFile) (oldkeys : list authKey) :
  files w !! keyPath env keyFlag = Some keybuf ->
  parseAuthKey keybuf = inl key -> wellFormed key ->
  remote w !! authKeysPath container = Some old ->
  readAuthorizedKeys (mkReader (rf_data old) None) = (oldkeys, None) ->
  Forall wellFormed oldkeys ->
  fst (realmain env container keyFlag w) = None ->
  let w' := snd (realmain env container keyFlag w) in
  fst (realmain env container keyFlag w') = Some DuplicateKeyError /\
  remote (snd (realmain env container keyFlag w')) = remote w'.
Proof.
  intros Hkey Hparse Hwf Hold Hread Hwfs Hfirst w'.
  (* what the success of the first run says about the environment *)
  pose proof (realmain_outcome env container keyFlag w) as Ho.
  rewrite Hfirst in Ho. unfold outcome in Ho. rewrite Hkey, Hparse in Ho.
  destruct (env_tempFileErr env) eqn:Htmp; [done|].
  destruct (files w !! env_tempName env) eqn:Hfree; [done|].
  destruct (env_pullErr env) eqn:Hpull; [done|].
  rewrite Hold in Ho. unfold decodeRemote in Ho.
  destruct (env_readErr env) as [[n msg]|] eqn:Hrd.
  { destruct (readLoop_fail (S (length (take n (rf_data old))))
                (mkReader (take n (rf_data old)) (Some msg)) [] msg eq_refl)
      as [e He]; [cbn; lia|].
    unfold readAuthorizedKeys, readFrom in Ho. cbn [rd_data] in Ho.
    by rewrite He in Ho. }
  rewrite Hread in Ho.
  (* the container's file after the first run *)
  pose proof (realmain_spec env container keyFlag w) as Hs. cbv zeta in Hs.
  pose proof (realmain_files env container keyFlag w) as Hfiles.
  fold w' in Hfiles. subst w'.
  destruct (realmain env container keyFlag w) as [r w1]. cbn [fst snd] in *.
  subst r. destruct Hs as [_ [(_ & e & [=] & _)|Hs]].
  destruct Hs as (keybuf' & key' & mid & Hkey' & Hparse' & _ & _ & _ & _ & _ & _
                  & old' & keys' & Hold' & Hread' & _ & Hremote & _).
  fold (authKeysPath container) in Hold', Hremote.
  rewrite Hkey in Hkey'. injection Hkey' as <-.
  rewrite Hparse in Hparse'. injection Hparse' as <-.
  rewrite Hold in Hold'. injection Hold' as <-.
  rewrite Hread in Hread'. injection Hread' as <-.
  assert (Hdup : outcome env container keyFlag w1 = Some DuplicateKeyError).
  { unfold outcome. rewrite Hfiles, Hkey, Hparse, Htmp, Hfree, Hpull, Hremote.
    rewrite lookup_insert_eq. unfold decodeRemote. rewrite Hrd. cbn [rf_data].
    unfold readAuthorizedKeys.
    rewrite readFrom_encoded by (apply Forall_app; split; [done | by constructor]).
    cbn [app].
    replace (alreadyPresent (Marshal (Key key)) (oldkeys ++ [key])) with true; [done|].
    symmetry. apply alreadyPresent_spec. exists key. split; [|done].
    apply elem_of_app. right. by left. }
  pose proof (realmain_outcome env container keyFlag w1) as Ho2.
  rewrite Hdup in Ho2. split; [done|].
  pose proof (realmain_spec env container keyFlag w1) as Hs2. cbv zeta in Hs2.
  destruct (realmain env container keyFlag w1) as [r2 w2]. cbn [fst snd] in *.
  subst r2. destruct Hs2 as [_ [[-> _]|Hs2]]; [done|].
  by destruct Hs2 as (_ & _ & _ & _ & _ & _ & _ & _ & _ & _ & _ & -> & _).
Qed.

End TwiceMore.

(** ** The further properties on the example data *)
Section MoreExamples.
Import Demo DemoSteps.
#[local] Existing Instance Demo.ssh.

(** A run on a file larger than the buffer of the writer: 80 keys in the
    container and the new one, 81 lines of 56 bytes. The buffered writer
    writes to the file when its 4096 bytes are full, and again at the
    flush. *)
Lemma demo_large_file :
  fst (realmain env "web1" "" (world (replicate 80 recA))) = None /\
  writeSizes (trace (snd (realmain env "web1" "" (world (replicate 80 recA)))))
    = [4096; 440].
Proof. split; vm_compute; reflexivity. Qed.

Lemma X1_witness :
  readAuthorizedKeys (mkReader (joinLines [lineOf recA; lineOf recB]) None)
    = ([recA; recB], None).
Proof.
  apply (X1_decode_line_by_line [lineOf recA; lineOf recB] [recA; recB]).
  - repeat constructor.
  - repeat constructor.
Defined.

Lemma X2_witness :
  readAuthorizedKeys
    (mkReader (joinLines [lineOf recA] ++ ed25519Line ++ x0a :: lineOf recB) None)
    = ([], Some UnsupportedAlgorithm).
Proof.
  apply (X2_first_bad_line_decides [lineOf recA] [recA] ed25519Line (lineOf recB)
           UnsupportedAlgorithm None).
  - repeat constructor.
  - reflexivity.
  - repeat constructor.
  - reflexivity.
Defined.

Lemma X3_witness :
  readAuthorizedKeys
    (mkReader (joinLines [lineOf recA] ++ lineOf recB)
       (Some "read /tmp/addkey012345678: input/output error"))
    = ([], Some (ext_error "read /tmp/addkey012345678: input/output error")).
Proof.
  apply (X3_read_error_discards [lineOf recA] [recA] (lineOf recB)).
  - repeat constructor.
  - reflexivity.
  - repeat constructor.
Defined.

Lemma X4_witness :
  parseAuthKey (commentLine ++ [x0a]) = inr errUnsupportedKeyAlgo /\
  (exists e,
     readAuthorizedKeys
       (mkReader (joinLines [lineOf recA] ++ commentLine ++ x0a :: lineOf recB ++ [x0a])
          None)
       = ([], Some e)) /\
  (forall rs : list authKey,
     Forall2 (fun l r => parseAuthKey (l ++ [x0a]) = inl r) [lineOf recA] rs ->
     readAuthorizedKeys
       (mkReader (joinLines [lineOf recA] ++ commentLine ++ x0a :: lineOf recB ++ [x0a])
          None)
       = ([], Some errUnsupportedKeyAlgo)).
Proof.
  apply (X4_blank_and_comment_lines_rejected [lineOf recA] commentLine
           (lineOf recB ++ [x0a]) None).
  - repeat constructor.
  - reflexivity.
  - intros [=].
  - intros [=].
Defined.

Lemma X7_witness :
  files (snd (writeAuthorizedKeys env (mkFile tmpFile) [recA; recB] remotePath
                (opened [recA]))) !! tmpFile
    = Some (flat_map MarshalWithComment [recA; recB]) /\
  handles (snd (writeAuthorizedKeys env (mkFile tmpFile) [recA; recB] remotePath
                  (opened [recA]))) !! tmpFile
    = Some (length (flat_map MarshalWithComment [recA; recB])) /\
  remote (snd (writeAuthorizedKeys env (mkFile tmpFile) [recA; recB] remotePath
                 (opened [recA]))) !! remotePath
    = Some (mkRemoteFile (flat_map MarshalWithComment [recA; recB]) 0 0 "640").
Proof.
  apply (X7_write_replaces_content env (mkFile tmpFile) [recA; recB] remotePath
           (opened [recA])).
  - split; eexists; reflexivity.
  - reflexivity.
Defined.

Lemma X8_witness :
  fst (writeAuthorizedKeys envFlushFails (mkFile tmpFile) [recA; recB] remotePath
         (opened [recA]))
    = Some (ext_error "write /tmp/addkey012345678: no space left on device") /\
  (([recA; recB] : list authKey) = [] ->
   snd (writeAuthorizedKeys envFlushFails (mkFile tmpFile) [recA; recB] remotePath
          (opened [recA])) = opened [recA]).
Proof.
  apply (X8_write_first_failure envFlushFails (mkFile tmpFile) [recA; recB] remotePath
           (opened [recA])).
  split; eexists; reflexivity.
Defined.


Lemma X15_witness :
  MarshalWithComment recA =
    (String.list_byte_of_string (KeyType (Key recA)) ++ [x20]
       ++ Base64.Encode (KeyMarshal (Key recA)) ++ [x20]
       ++ String.list_byte_of_string (Comment recA)) ++ [x0a] /\
  noLF (String.list_byte_of_string (KeyType (Key recA)) ++ [x20]
          ++ Base64.Encode (KeyMarshal (Key recA)) ++ [x20]
          ++ String.list_byte_of_string (Comment recA)).
Proof.
  apply (X15_line_format (keys := keys) recA).
  - unfold supportedKey. apply (bool_decide_unpack _). reflexivity.
  - done.
  - reflexivity.
Defined.

Lemma X16_witness :
  parseAuthKey (lineOf recA) = inl recA /\
  parseAuthKey (MarshalWithComment recA ++ MarshalWithComment recB) = inl recA.
Proof.
  apply (X16_key_file_first_line (keys := keys) recA (lineOf recA)
           (MarshalWithComment recB)).
  - repeat constructor; try reflexivity;
      try (apply (bool_decide_unpack _); reflexivity); done.
  - reflexivity.
Defined.

Lemma X17_witness : [recA; recB] = [recA; recB].
Proof.
  apply (X17_encoding_injective (keys := keys) [recA; recB] [recA; recB]).
  - repeat constructor; try reflexivity;
      try (apply (bool_decide_unpack _); reflexivity); done.
  - repeat constructor; try reflexivity;
      try (apply (bool_decide_unpack _); reflexivity); done.
  - reflexivity.
Defined.

Lemma X18_witness :
  fst (realmain env "web1" "" (snd (realmain env "web1" "" (world [recA; recB]))))
    = Some DuplicateKeyError /\
  remote (snd (realmain env "web1" ""
                 (snd (realmain env "web1" "" (world [recA; recB])))))
    = remote (snd (realmain env "web1" "" (world [recA; recB]))).
Proof.
  apply (X18_second_run_is_duplicate (keys := keys) env "web1" "" (world [recA; recB])
           (MarshalWithComment recC) recC
           (mkRemoteFile (flat_map MarshalWithComment [recA; recB]) 0 0 "600")
           [recA; recB]).
  - reflexivity.
  - reflexivity.
  - repeat constructor; try reflexivity;
      try (apply (bool_decide_unpack _); reflexivity); done.
  - reflexivity.
  - reflexivity.
  - repeat constructor; try reflexivity;
      try (apply (bool_decide_unpack _); reflexivity); done.
  - reflexivity.
Defined.

End MoreExamples.

(** ** What the program prints *)
Section MessagesMore.
Context `{ssh : SshAPI} (env : Env).

(** X19. The program never writes to standard output, and to standard
    error it writes one message at most: for a command line that
    [flag.Parse] rejects, the error of the flag and the usage of the
    flags, and for [-h] that usage alone; otherwise the usage text of the
    program when the container argument is missing, the line
    [Error: <message>] for the error that stopped [realmain], and nothing
    after a successful run. *)
Theorem X19_one_message (osArgs : list string) (w : World) :
  stdout (snd (main env osArgs w)) = stdout w /\
  stderr (snd (main env osArgs w)) =
    match GoFlag.Parse osArgs with
    | GoFlag.ParseError msg => stderr w +:+ msg +:+ LF +:+ flagUsage env
    | GoFlag.ParseHelp => stderr w +:+ flagUsage env
    | GoFlag.Parsed keyFlag args =>
        if decide (flag_Arg args 0 = "") then stderr w +:+ usage env
        else match outcome env (flag_Arg args 0) keyFlag w with
             | Some e => stderr w +:+ perrText e
             | None => stderr w
             end
    end.
Proof.
  unfold main. destruct (GoFlag.Parse osArgs) as [keyFlag args|msg|]; [|done|done].
  pose proof (realmain_spec env (flag_Arg args 0) keyFlag w) as Hs. cbv zeta in Hs.
  pose proof (realmain_outcome env (flag_Arg args 0) keyFlag w) as Ho.
  unfold main_body, printUsage, perr, mbind, IO_bind, mret, IO_ret.
  destruct (decide (String.length (flag_Arg args 0) = 0)) as [Hl|Hl].
  - destruct (flag_Arg args 0); [|done]. by rewrite decide_True.
  - rewrite decide_False by (intros E; by rewrite E in Hl).
    destruct (realmain env _ keyFlag w) as [r w']. cbn [fst] in Ho. subst r.
    destruct Hs as [[Hout Herr] _].
    destruct (outcome env _ keyFlag w); cbn; by rewrite ?Hout, ?Herr.
Qed.

End MessagesMore.
